(** * Field normalisation and video transformation of the YouTube module

    A shallow embedding of [YouTubeHelper] (parseDuration, parseViewCount,
    formatImageQuality, transformYouTubeVideo) and of
    [YouTubeService.formatDuration], together with the fragment of the
    ECMAScript library they call: [parseInt], [String.prototype.split],
    [match], [replace], [padStart], [Number.prototype.toString] and the
    backtracking regular-expression matcher.  The link derivation, whose
    code is not among the files embedded here, is modelled from its
    specification in [LinkDerivation].

    The definitions come first: the ECMAScript fragment ([JS]), the record
    types ([Models]), the helper and the service, the reference
    definitions the statements use ([Reference]), the operations as one
    interface ([FieldNormalizer]) and the same operations over a store of
    the objects they create and change ([Stateful]); then the stream
    lookup, the methods of the service and the route handlers.  The facts
    modules relate the matcher and [parseInt] to plain recursions on
    texts, the arithmetic of doubles to that of integers where it is
    exact, and the operations over a store to the operations without one;
    the properties close the file.

    Conventions of the embedding:
    - a JavaScript string is a [string]: a sequence of code units, here the
      code units below 256;
    - a JavaScript number is an IEEE-754 double; every number the embedded
      functions compute is an integer, an infinity or [NaN], so a number is
      [NaN], [Infinity] with its sign, or [Num z] for the integer [z] the
      double denotes.  A sum, a product and the integer [parseInt] reads are
      rounded to the nearest double, ties to even, and overflow to an
      infinity ([to_double]); [toString] prints the shortest decimal that
      reads back as the double, with an exponent from 10^21 on.  The two
      zeros are not told apart, and the numbers the functions are given
      (widths, bitrates, status codes) are integers too.  The operations
      return doubles only; a [Num z] whose [z] no double holds can only be
      given from outside, and stands for an integer there;
    - [undefined] and [null] are [None]; a method call on [undefined] or
      [null] is the abrupt completion [Throw TypeError]. *)

From Stdlib Require Import ZArith List String Ascii Bool Lia.
From Stdlib Require Import DecimalString.
From Stdlib Require Decimal DecimalPos DecimalN.
Import ListNotations.

Local Open Scope string_scope.
Local Open Scope Z_scope.

(* ================================================================== *)
(** ** The ECMAScript fragment *)
(* ================================================================== *)

Module JS.

(** *** Completions *)

Inductive exn : Type :=
| TypeError
| Error (message : string).

Inductive completion (A : Type) : Type :=
| Normal (a : A)
| Throw (e : exn).

Arguments Normal {A} a.
Arguments Throw {A} e.

Definition bind {A B : Type} (m : completion A) (f : A -> completion B)
  : completion B :=
  match m with
  | Normal a => f a
  | Throw e => Throw e
  end.

(** Reading a property or calling a method of a value that may be
    [undefined] or [null]. *)
Definition deref {A : Type} (v : option A) : completion A :=
  match v with
  | Some a => Normal a
  | None => Throw TypeError
  end.

(** [ToString] of a [string | undefined]. *)
Definition ToString (v : option string) : string :=
  match v with
  | Some s => s
  | None => "undefined"
  end.

(** [ToBoolean] of an object or [null]: every object is truthy. *)
Definition truthy_object {A : Type} (v : option A) : bool :=
  match v with
  | Some _ => true
  | None => false
  end.

(** [array.forEach((element, index) => ...)] where the callback updates
    a captured local variable, whose value is threaded through. *)
Fixpoint forEach {A St : Type} (callback : St -> A -> nat -> St)
  (array : list A) (index : nat) (st : St) : St :=
  match array with
  | [] => st
  | element :: array' =>
      forEach callback array' (S index) (callback st element index)
  end.

(** *** Numbers *)

Inductive number : Type :=
| NaN
| Num (z : Z)
| Infinity (negative : bool).

(** The double of an integer: the integer itself below 2^53; above, the
    nearest integer with a significand of 53 bits, the even one on a tie,
    and an infinity when that is 2^1024 or more. *)
Definition to_double (z : Z) : number :=
  let a := Z.abs z in
  if a <? 2 ^ 53 then Num z
  else
    let e := Z.log2 a - 52 in
    let q := a / 2 ^ e in
    let r := a mod 2 ^ e in
    let half := 2 ^ (e - 1) in
    let q' := if (half <? r) || ((r =? half) && Z.odd q) then q + 1 else q in
    let m := q' * 2 ^ e in
    if 2 ^ 1024 <=? m then Infinity (z <? 0) else Num (Z.sgn z * m).

(** [a + b] and [a * b]: the exact result, rounded; [NaN] for the sum of
    opposite infinities and for the product of an infinity and 0. *)
Definition add (a b : number) : number :=
  match a, b with
  | Num x, Num y => to_double (x + y)
  | Infinity s, Num _ | Num _, Infinity s => Infinity s
  | Infinity s, Infinity t => if Bool.eqb s t then Infinity s else NaN
  | _, _ => NaN
  end.

Definition mul (a b : number) : number :=
  match a, b with
  | Num x, Num y => to_double (x * y)
  | Infinity s, Num y | Num y, Infinity s =>
      if y =? 0 then NaN else Infinity (xorb s (y <? 0))
  | Infinity s, Infinity t => Infinity (xorb s t)
  | _, _ => NaN
  end.

(** [Math.pow(base, index)] for an integer base and an array index: the
    power, rounded.  The result is exact while the power is below 2^53 and
    infinite from 2^1024 on, whatever the engine; in between an engine may
    be off by one unit in the last place. *)
Definition pow (base : Z) (index : nat) : number :=
  to_double (base ^ Z.of_nat index).

(** [a >= b] and [a > b]: false as soon as an operand is [NaN]. *)
Definition geb (a b : number) : bool :=
  match a, b with
  | Num x, Num y => y <=? x
  | Infinity false, Num _ | Num _, Infinity true => true
  | Infinity s, Infinity t => Bool.eqb s t || t
  | _, _ => false
  end.

Definition gtb (a b : number) : bool :=
  match a, b with
  | Num x, Num y => y <? x
  | Infinity false, Num _ | Num _, Infinity true => true
  | Infinity s, Infinity t => negb s && t
  | _, _ => false
  end.

(** The decimal text of an integer. *)
Definition decimal_text (z : Z) : string := NilZero.string_of_int (Z.to_int z).

(** The integer [c] is read as the double [x]. *)
Definition rounds_to (x c : Z) : bool :=
  match to_double c with
  | Num m => m =? x
  | _ => false
  end.

(** The integer with the fewest significant digits that is read as the
    double [x], the nearest to [x] if there are two: the multiples of
    10^places next to [x] are tried for [places] from the number of digits
    of [x] down. *)
Fixpoint shortest (places : nat) (x : Z) : Z :=
  match places with
  | O => x
  | S places' =>
      let p := 10 ^ Z.of_nat places' in
      let lo := x / p * p in
      let hi := lo + p in
      match rounds_to x lo, rounds_to x hi with
      | true, true =>
          if x - lo <? hi - x then lo
          else if hi - x <? x - lo then hi
          else if Z.even (x / p) then lo else hi
      | true, false => lo
      | false, true => hi
      | false, false => shortest places' x
      end
  end.

Fixpoint strip_zeros (digits : list ascii) : list ascii :=
  match digits with
  | c :: digits' => if Ascii.eqb c "0" then strip_zeros digits' else digits
  | [] => []
  end.

(** The digits of a decimal text without the zeros at its end. *)
Definition significant (text : string) : string :=
  string_of_list_ascii (rev (strip_zeros (rev (list_ascii_of_string text)))).

(** The text of an integer of 2^53 or more: its digits up to 21 of them,
    and from 10^21 on the significant digits, a point after the first, and
    the exponent. *)
Definition large_text (c : Z) : string :=
  let text := decimal_text c in
  let n := String.length text in
  if (n <=? 21)%nat then text
  else
    match significant text with
    | String d "" => String d "" ++ "e+" ++ decimal_text (Z.of_nat n - 1)
    | String d digits =>
        String d ("." ++ digits) ++ "e+" ++ decimal_text (Z.of_nat n - 1)
    | "" => text
    end.

(** [Number.prototype.toString()]: below 2^53 the decimal text of the
    integer, above it the shortest text that reads back as the double. *)
Definition toString (n : number) : string :=
  match n with
  | NaN => "NaN"
  | Infinity false => "Infinity"
  | Infinity true => "-Infinity"
  | Num z =>
      if Z.abs z <? 2 ^ 53 then decimal_text z
      else
        let a := Z.abs z in
        (if z <? 0 then "-" else "")
        ++ large_text (shortest (String.length (decimal_text a)) a)
  end.

(** *** Truthiness *)

(** [ToBoolean] of a [string | undefined]: the empty string and
    [undefined] are falsy. *)
Definition truthy_string (v : option string) : bool :=
  match v with
  | None => false
  | Some "" => false
  | Some _ => true
  end.

(** [ToBoolean] of a [boolean | undefined]. *)
Definition truthy_bool (v : option bool) : bool :=
  match v with
  | Some true => true
  | _ => false
  end.

(** *** Code units *)

Definition code (c : ascii) : N := N_of_ascii c.

Definition between (lo hi : N) (c : ascii) : bool :=
  ((lo <=? code c) && (code c <=? hi))%N.

(** The class [\d]. *)
Definition is_digit (c : ascii) : bool := between 48 57 c.

(** [StrWhiteSpaceChar]: TAB, LF, VT, FF, CR, SP and NBSP are the white
    space and line terminator code units below 256. *)
Definition is_white_space (c : ascii) : bool :=
  (between 9 13 c || (code c =? 32) || (code c =? 160))%N.

(** The value of a code unit as a digit of a radix up to 36, if it is a
    digit or a letter. *)
Definition digit_value (c : ascii) : option Z :=
  if between 48 57 c then Some (Z.of_N (code c) - 48)
  else if between 97 122 c then Some (Z.of_N (code c) - 87)
  else if between 65 90 c then Some (Z.of_N (code c) - 55)
  else None.

(** *** parseInt *)

Fixpoint trim_start (s : string) : string :=
  match s with
  | String c s' => if is_white_space c then trim_start s' else s
  | "" => ""
  end.

(** The digits of the longest prefix of [s] made of radix-[R] digits. *)
Fixpoint radix_digits (R : Z) (s : string) : list Z :=
  match s with
  | String c s' =>
      match digit_value c with
      | Some d => if d <? R then d :: radix_digits R s' else []
      | None => []
      end
  | "" => []
  end.

Definition math_int (R : Z) (ds : list Z) : Z :=
  fold_left (fun acc d => acc * R + d) ds 0.

(** [parseInt(string)] with the radix left out: leading white space is
    dropped, one sign is read, a [0x] or [0X] prefix selects radix 16,
    and the longest prefix of digits is the value, rounded to a double
    (an engine may take the decimal digits after the 20th significant one
    for zeros before it rounds); [NaN] when that prefix is empty. *)
Definition parseInt (input : string) : number :=
  let s := trim_start input in
  let '(sign, s) :=
    match s with
    | String c s' =>
        if Ascii.eqb c "-" then (-1, s')
        else if Ascii.eqb c "+" then (1, s')
        else (1, s)
    | "" => (1, s)
    end in
  let '(R, s) :=
    match s with
    | String c0 (String c1 s') =>
        if Ascii.eqb c0 "0" && (Ascii.eqb c1 "x" || Ascii.eqb c1 "X")
        then (16, s') else (10, s)
    | _ => (10, s)
    end in
  match radix_digits R s with
  | [] => NaN
  | ds => to_double (sign * math_int R ds)
  end.

(** *** String methods *)

(** [s.split(sep)] for a one code unit separator: the empty string splits
    into one empty part. *)
Fixpoint split (sep : ascii) (s : string) : list string :=
  match s with
  | "" => [""]
  | String c s' =>
      if Ascii.eqb c sep then "" :: split sep s'
      else
        match split sep s' with
        | part :: parts => String c part :: parts
        | [] => [String c ""]
        end
  end.

Fixpoint repeat_fill (fill : string) (cur : string) (n : nat) : string :=
  match n with
  | O => ""
  | S n' =>
      match cur with
      | String c cur' => String c (repeat_fill fill cur' n')
      | "" =>
          match fill with
          | String c fill' => String c (repeat_fill fill fill' n')
          | "" => ""
          end
      end
  end.

(** [s.padStart(targetLength, fillString)]: the fill string is repeated
    and cut to the missing length, and put in front. *)
Definition padStart (targetLength : nat) (fillString : string) (s : string)
  : string :=
  if (targetLength <=? String.length s)%nat then s
  else repeat_fill fillString fillString (targetLength - String.length s) ++ s.

(** *** Regular expressions *)

(** The pattern syntax the module uses.  A non-capturing group [(?:r)] is
    [r] itself; [Group n r] is the [n]-th capturing group. *)
Inductive regex : Type :=
| Chr (c : ascii)
| Class (p : ascii -> bool)
| Seq (r1 r2 : regex)
| Opt (r : regex)
| Plus (r : regex)
| Group (n : nat) (r : regex).

(** The captures: the groups that took part in the match, latest first. *)
Definition captures : Type := list (nat * string).

Fixpoint capture (n : nat) (caps : captures) : option string :=
  match caps with
  | [] => None
  | (k, v) :: caps' => if Nat.eqb k n then Some v else capture n caps'
  end.

(** The part of [s] consumed on the way to its suffix [rest]. *)
Definition consumed (s rest : string) : string :=
  substring 0 (String.length s - String.length rest) s.

Section Matcher.
Context {R : Type}.

(** A continuation receives the rest of the input and the captures. *)
Definition continuation : Type := string -> captures -> option R.

(** The greedy repetition [r*] of a matcher [mr], at most [fuel] times:
    one more iteration is tried first and the continuation second; an
    iteration that consumes nothing is rejected, so the length of the
    input bounds the number of iterations and is the fuel [matcher]
    gives. *)
Fixpoint repeat_matcher
  (mr : string -> captures -> continuation -> option R)
  (fuel : nat) (s : string) (caps : captures) (k : continuation)
  : option R :=
  match fuel with
  | O => k s caps
  | S fuel' =>
      match
        mr s caps (fun s' caps' =>
          if (String.length s' <? String.length s)%nat
          then repeat_matcher mr fuel' s' caps' k
          else None)
      with
      | Some x => Some x
      | None => k s caps
      end
  end.

(** The backtracking matcher: [matcher r s caps k] matches [r] at the
    start of [s] and hands the rest to [k]; when [k] fails the next
    alternative is tried.  The captures of a repeated group are not
    cleared between iterations, which no pattern of the module can
    observe: under [+] they have character classes only, and [?] runs its
    group once. *)
Fixpoint matcher (r : regex) (s : string) (caps : captures)
  (k : continuation) : option R :=
  match r with
  | Chr c =>
      match s with
      | String a s' => if Ascii.eqb a c then k s' caps else None
      | "" => None
      end
  | Class p =>
      match s with
      | String a s' => if p a then k s' caps else None
      | "" => None
      end
  | Seq r1 r2 =>
      matcher r1 s caps (fun s' caps' => matcher r2 s' caps' k)
  | Opt r1 =>
      match
        matcher r1 s caps (fun s' caps' =>
          if (String.length s' <? String.length s)%nat
          then k s' caps' else None)
      with
      | Some x => Some x
      | None => k s caps
      end
  | Plus r1 =>
      matcher r1 s caps (fun s' caps' =>
        repeat_matcher (matcher r1) (String.length s') s' caps' k)
  | Group n r1 =>
      matcher r1 s caps (fun s' caps' =>
        k s' ((n, consumed s s') :: caps'))
  end.
End Matcher.

(** The result of a successful match: [matched] is element 0 of the
    result array, [groups] gives the capturing groups. *)
Record match_result : Type := MatchResult {
  matched : string;
  groups : captures
}.

Definition group (n : nat) (m : match_result) : option string :=
  capture n (groups m).

(** [RegExpBuiltinExec] for a pattern without the [g] and [y] flags: the
    match is tried at each position from the left, the first success
    wins; [None] is the [null] result. *)
Fixpoint exec (r : regex) (s : string) : option match_result :=
  match matcher r s [] (fun rest caps => Some (rest, caps)) with
  | Some (rest, caps) => Some (MatchResult (consumed s rest) caps)
  | None =>
      match s with
      | String _ s' => exec r s'
      | "" => None
      end
  end.

(** [s.match(r)] for a pattern without the [g] flag. *)
Definition string_match (s : string) (r : regex) : option match_result :=
  exec r s.

(** [s.replace(r, replacement)] for a pattern with the [g] flag and a
    replacement text without [$]: every match, from the left, is
    replaced; after an empty match one code unit is copied. *)
Fixpoint replace_loop (fuel : nat) (r : regex) (replacement : string)
  (s : string) : string :=
  match fuel with
  | O => s
  | S fuel' =>
      match matcher r s [] (fun rest _ => Some rest) with
      | Some rest =>
          if (String.length rest <? String.length s)%nat
          then replacement ++ replace_loop fuel' r replacement rest
          else
            match s with
            | String c s' =>
                replacement ++ String c (replace_loop fuel' r replacement s')
            | "" => replacement
            end
      | None =>
          match s with
          | String c s' => String c (replace_loop fuel' r replacement s')
          | "" => ""
          end
      end
  end.

Definition replace_global (s : string) (r : regex) (replacement : string)
  : string :=
  replace_loop (S (String.length s)) r replacement s.

End JS.

Notation "x <- m ;; k" := (JS.bind m (fun x => k))
  (at level 61, m at next level, right associativity).

(* ================================================================== *)
(** ** models/youtube-video.model.ts *)
(* ================================================================== *)

Module Models.
Import JS.

Record Thumbnail : Type := {
  thumb_url : string;
  thumb_width : number;
  thumb_height : number
}.

(** [YouTubeVideoAPIResponse]; optional fields are [option]s. *)
Record YouTubeVideoAPIResponse : Type := {
  api_id : string;
  api_title : string;
  api_thumbnails : list Thumbnail;
  api_channelTitle : string;
  api_channelId : string;
  api_description : string;
  api_viewCount : option string;
  api_publishDate : option string;
  api_publishedText : option string;
  api_lengthText : option string;
  api_isLive : option bool
}.

Record Image : Type := {
  quality : string;
  image_url : string
}.

Record Channel : Type := {
  channel_id : string;
  channel_name : string
}.

(** [YouTubeVideo]; nullable fields are [option]s. *)
Record YouTubeVideo : Type := {
  id : string;
  name : string;
  type : string;
  duration : option number;
  url : string;
  image : list Image;
  channel : Channel;
  description : string;
  publishDate : option string;
  viewCount : option number;
  isLive : bool;
  streamUrl : option string
}.
End Models.

(* ================================================================== *)
(** ** helpers: the class YouTubeHelper *)
(* ================================================================== *)

Module YouTubeHelper.
Import JS Models.

Definition parseDuration (lengthText : option string)
  : completion (option number) :=
  if negb (truthy_string lengthText) then Normal None
  else
    text <- deref lengthText ;;
    let parts := rev (split ":" text) in
    let seconds :=
      forEach
        (fun seconds part index =>
           add seconds (mul (parseInt part) (pow 60 index)))
        parts 0%nat (Num 0) in
    Normal (Some seconds).

(** The class [[\d,]] and the pattern [/[\d,]+/]. *)
Definition digit_or_comma (c : ascii) : bool := is_digit c || Ascii.eqb c ",".

Definition digits_and_commas : regex := Plus (Class digit_or_comma).

(** The pattern [/,/g]. *)
Definition comma : regex := Chr ",".

Definition parseViewCount (viewCountText : option string)
  : completion (option number) :=
  if negb (truthy_string viewCountText) then Normal None
  else
    text <- deref viewCountText ;;
    let match_ := string_match text digits_and_commas in
    if truthy_object match_ then
      m <- deref match_ ;;
      Normal (Some (parseInt (replace_global (matched m) comma "")))
    else Normal None.

Definition formatImageQuality (width : number) : string :=
  if geb width (Num 1280) then "1280x720"
  else if geb width (Num 640) then "640x480"
  else if geb width (Num 480) then "480x360"
  else if geb width (Num 320) then "320x180"
  else "120x90".

(** One line of [console.error]: the text and the error printed after
    it. *)
Record log_line : Type := {
  log_text : string;
  log_error : exn
}.

(** [transformYouTubeVideo]: [getYouTubeStreamUrl] is the imported
    lookup, whose awaited promise is fulfilled ([Normal]) or rejected
    ([Throw]).  The result is the settled promise and the lines written
    to the console. *)
Definition transformYouTubeVideo
  (getYouTubeStreamUrl : string -> completion string)
  (video : YouTubeVideoAPIResponse) (includeStreamUrl : bool)
  : completion YouTubeVideo * list log_line :=
  let images :=
    map (fun thumb =>
           {| quality := formatImageQuality (thumb_width thumb);
              image_url := thumb_url thumb |})
        (api_thumbnails video) in
  let '(streamUrl, console) :=
    if includeStreamUrl then
      match getYouTubeStreamUrl (api_id video) with
      | Normal u => (Some u, [])
      | Throw error =>
          (None,
           [ {| log_text :=
                  "Failed to get stream URL for " ++ api_id video ++ ":";
                log_error := error |} ])
      end
    else (None, []) in
  (duration_ <- parseDuration (api_lengthText video) ;;
   viewCount_ <- parseViewCount (api_viewCount video) ;;
   Normal
     {| id := api_id video;
        name := api_title video;
        type := "youtube";
        duration := duration_;
        url := "https://www.youtube.com/watch?v=" ++ api_id video;
        image := images;
        channel := {| channel_id := api_channelId video;
                      channel_name := api_channelTitle video |};
        description :=
          if truthy_string (Some (api_description video))
          then api_description video else "";
        publishDate :=
          if truthy_string (api_publishDate video)
          then api_publishDate video else None;
        viewCount := viewCount_;
        isLive := if truthy_bool (api_isLive video) then true else false;
        streamUrl := streamUrl |},
   console).
End YouTubeHelper.

(* ================================================================== *)
(** ** services/youtube.service.ts: formatDuration *)
(* ================================================================== *)

Module YouTubeService.
Import JS.

Definition digits : regex := Plus (Class is_digit).

(** The pattern [/PT(?:(\d+)H)?(?:(\d+)M)?(?:(\d+)S)?/]. *)
Definition iso_duration : regex :=
  Seq (Chr "P") (Seq (Chr "T")
    (Seq (Opt (Seq (Group 1 digits) (Chr "H")))
      (Seq (Opt (Seq (Group 2 digits) (Chr "M")))
           (Opt (Seq (Group 3 digits) (Chr "S")))))).

(** [match[n] ? parseInt(match[n]) : 0] *)
Definition group_number (g : option string) : number :=
  if truthy_string g then parseInt (ToString g) else Num 0.

Definition formatDuration (isoDuration : string) : completion string :=
  let match_ := string_match isoDuration iso_duration in
  if negb (truthy_object match_) then Normal "0:00"
  else
    m <- deref match_ ;;
    let hours := group_number (group 1 m) in
    let minutes := group_number (group 2 m) in
    let seconds := group_number (group 3 m) in
    if gtb hours (Num 0) then
      Normal (toString hours ++ ":"
              ++ padStart 2 "0" (toString minutes) ++ ":"
              ++ padStart 2 "0" (toString seconds))
    else
      Normal (toString minutes ++ ":" ++ padStart 2 "0" (toString seconds)).
End YouTubeService.


(* ================================================================== *)
(** ** Reference definitions used by the statements *)
(* ================================================================== *)

Module Reference.
Import JS.

(** The longest prefix of [s] whose code units satisfy [p], and what
    follows it. *)
Fixpoint take_while (p : ascii -> bool) (s : string) : string :=
  match s with
  | String a s' => if p a then String a (take_while p s') else ""
  | "" => ""
  end.

Fixpoint drop_while (p : ascii -> bool) (s : string) : string :=
  match s with
  | String a s' => if p a then drop_while p s' else s
  | "" => ""
  end.

Fixpoint all_chars (p : ascii -> bool) (s : string) : bool :=
  match s with
  | String a s' => p a && all_chars p s'
  | "" => true
  end.

Definition none_chars (p : ascii -> bool) (s : string) : bool :=
  all_chars (fun a => negb (p a)) s.

(** [s] does not start with a code unit of the class [p]. *)
Definition stops (p : ascii -> bool) (s : string) : bool :=
  match s with
  | String a _ => negb (p a)
  | "" => true
  end.

(** The greedy star of a class in front of a continuation, as a plain
    recursion on the input: the longest run is tried first. *)
Fixpoint greedy_star {R : Type} (p : ascii -> bool) (s : string)
  (caps : captures) (k : string -> captures -> option R) : option R :=
  match s with
  | String a s' =>
      if p a then
        match greedy_star p s' caps k with
        | Some x => Some x
        | None => k s caps
        end
      else k s caps
  | "" => k s caps
  end.

Definition is_colon (c : ascii) : bool := Ascii.eqb c ":".

Definition is_comma (c : ascii) : bool := Ascii.eqb c ",".

(** The first maximal run of code units of the class [p]. *)
Fixpoint first_run (p : ascii -> bool) (s : string) : option string :=
  match s with
  | String a s' => if p a then Some (take_while p s) else first_run p s'
  | "" => None
  end.

Fixpoint remove_char (c : ascii) (s : string) : string :=
  match s with
  | String a s' =>
      if Ascii.eqb a c then remove_char c s' else String a (remove_char c s')
  | "" => ""
  end.

(** The value of a text of decimal digits. *)
Definition decimal_digit (c : ascii) : Z := Z.of_N (code c) - 48.

Fixpoint decimal_acc (s : string) (acc : Z) : Z :=
  match s with
  | String a s' => decimal_acc s' (acc * 10 + decimal_digit a)
  | "" => acc
  end.

Definition decimal (s : string) : Z := decimal_acc s 0.

(** A numeral: one decimal digit or more. *)
Definition numeral (s : string) : bool :=
  all_chars is_digit s && negb (String.eqb s "").

(** The text after the first occurrence of [PT]. *)
Fixpoint after_PT (s : string) : option string :=
  match s with
  | String "P" (String "T" t) => Some t
  | String _ s' => after_PT s'
  | "" => None
  end.

(** A numeral followed by the unit letter [u] at the start of [s]: the
    numeral and the text after the unit. *)
Definition unit_group (u : ascii) (s : string) : option (string * string) :=
  match take_while is_digit s, drop_while is_digit s with
  | String a d, String b rest =>
      if Ascii.eqb b u then Some (String a d, rest) else None
  | _, _ => None
  end.

(** An optional group: the numeral if there is one, and the text left. *)
Definition optional_group (u : ascii) (s : string) : option string * string :=
  match unit_group u s with
  | Some (d, rest) => (Some d, rest)
  | None => (None, s)
  end.

(** The three optional groups read after [PT]. *)
Definition iso_groups (t : string)
  : option string * option string * option string :=
  let '(h, t1) := optional_group "H" t in
  let '(m, t2) := optional_group "M" t1 in
  let '(s, _) := optional_group "S" t2 in
  (h, m, s).

Definition numeral_or_absent (g : option string) : bool :=
  match g with
  | Some d => numeral d
  | None => true
  end.

(** The value of a group: 0 when the group is absent. *)
Definition group_value (g : option string) : Z :=
  match g with
  | Some d => decimal d
  | None => 0
  end.

(** The decimal text of a natural number. *)
Definition decimal_string (n : N) : string := decimal_text (Z.of_N n).

(** The decimal text of an integer, with a zero in front of a single
    digit. *)
Definition pad2 (n : Z) : string := padStart 2 "0" (decimal_text n).

(** [H:MM:SS] when there are hours, [M:SS] otherwise, every number in
    full decimal digits. *)
Definition clock (h m s : Z) : string :=
  if 0 <? h then decimal_text h ++ ":" ++ pad2 m ++ ":" ++ pad2 s
  else decimal_text m ++ ":" ++ pad2 s.

(** An ISO-8601 time text with optional hours, minutes and seconds. *)
Definition iso_part (u : string) (v : option N) : string :=
  match v with
  | Some n => decimal_string n ++ u
  | None => ""
  end.

Definition iso_text (h m s : option N) : string :=
  "PT" ++ iso_part "H" h ++ iso_part "M" m ++ iso_part "S" s.

Definition or_zero (v : option N) : Z :=
  match v with
  | Some n => Z.of_N n
  | None => 0
  end.

(** [parts] joined by colons. *)
Fixpoint join_colon (parts : list string) : string :=
  match parts with
  | [] => ""
  | [part] => part
  | part :: parts' => part ++ ":" ++ join_colon parts'
  end.

(** The sum of [values[i] * 60^i] over the positions [i] from [index]
    on. *)
Fixpoint weighted_sum (index : nat) (values : list Z) : Z :=
  match values with
  | [] => 0
  | v :: values' => v * 60 ^ Z.of_nat index + weighted_sum (S index) values'
  end.

(** The loop of parseDuration from an index and a number of seconds
    on. *)
Definition seconds_loop (parts : list string) (index : nat)
  (seconds : number) : number :=
  forEach
    (fun seconds part index =>
       add seconds (mul (parseInt part) (pow 60 index)))
    parts index seconds.

(** The integers a double holds exactly, neighbours included. *)
Definition safe (z : Z) : Prop := Z.abs z < 2 ^ 53.

(** 175 parts "0": index 174 is the first whose power of 60 is no finite
    double. *)
Definition zero_parts : list string := repeat "0" 175.

(** A run of 310 digits: more than the greatest finite double has. *)
Definition long_run : string := string_of_list_ascii (repeat "9"%char 310).

End Reference.


(* ================================================================== *)
(** ** The four normalisation operations as one interface *)
(* ================================================================== *)

Module FieldNormalizer.
Import JS YouTubeHelper YouTubeService Reference.

(** The values the operations return. *)
Inductive value : Type :=
| VNull
| VNumber (n : number)
| VString (s : string).

Inductive operation : Type :=
| ParseDuration (lengthText : option string)
| ParseViewCount (viewCountText : option string)
| FormatImageQuality (width : number)
| FormatDuration (isoDuration : string).

Definition nullable (v : option number) : value :=
  match v with
  | Some n => VNumber n
  | None => VNull
  end.

(** One call of an operation. *)
Definition call (op : operation) : completion value :=
  match op with
  | ParseDuration lengthText =>
      r <- parseDuration lengthText ;; Normal (nullable r)
  | ParseViewCount viewCountText =>
      r <- parseViewCount viewCountText ;; Normal (nullable r)
  | FormatImageQuality width => Normal (VString (formatImageQuality width))
  | FormatDuration isoDuration =>
      r <- formatDuration isoDuration ;; Normal (VString r)
  end.

(** The inputs an operation cannot parse: a duration text that is missing
    or is not a colon-separated list of numerals, a view count text that
    is missing or has no digit, an ISO duration in which the pattern finds
    no match.  Every width classifies. *)
Definition unparseable (op : operation) : bool :=
  match op with
  | ParseDuration None => true
  | ParseDuration (Some text) => negb (forallb numeral (split ":" text))
  | ParseViewCount None => true
  | ParseViewCount (Some text) => none_chars is_digit text
  | FormatImageQuality _ => false
  | FormatDuration isoDuration =>
      match after_PT isoDuration with
      | None => true
      | Some _ => false
      end
  end.

(** The input is missing: [undefined] or the empty text. *)
Definition missing (v : option string) : bool := negb (truthy_string v).

Definition labels : list string :=
  ["1280x720"; "640x480"; "480x360"; "320x180"; "120x90"].

(** [Object.is]: the same value, [NaN] included. *)
Definition same_value (a b : value) : bool :=
  match a, b with
  | VNull, VNull => true
  | VNumber NaN, VNumber NaN => true
  | VNumber (Num x), VNumber (Num y) => x =? y
  | VNumber (Infinity s), VNumber (Infinity t) => Bool.eqb s t
  | VString s, VString t => String.eqb s t
  | _, _ => false
  end.

(** [a === b]: [NaN] is not equal to itself. *)
Definition strict_equals (a b : value) : bool :=
  match a, b with
  | VNull, VNull => true
  | VNumber (Num x), VNumber (Num y) => x =? y
  | VNumber (Infinity s), VNumber (Infinity t) => Bool.eqb s t
  | VString s, VString t => String.eqb s t
  | _, _ => false
  end.

End FieldNormalizer.

(* ================================================================== *)
(** ** The four operations over a store of mutable objects *)
(* ================================================================== *)

(** The operations again, with the objects they create and change kept in
    a store: the array [split] makes and [reverse] turns around, the
    binding of [let seconds], and the objects of the regular expression
    literals with their [lastIndex]. *)
Module Stateful.
Import JS YouTubeHelper YouTubeService FieldNormalizer.

(** The mutable objects the operations create: the binding of a [let],
    an array, and a regular expression object with its flag [g] and its
    [lastIndex]. *)
Inductive cell : Type :=
| Binding (value : number)
| Array (elements : list string)
| RegExp (pattern : regex) (global : bool) (lastIndex : nat).

(** The store holds the objects allocated so far; a reference is the
    position of its object. *)
Definition store : Type := list cell.

Definition ref : Type := nat.

(** A computation reads and writes the store and completes. *)
Definition st (A : Type) : Type := store -> completion A * store.

Definition ret {A : Type} (a : A) : st A := fun h => (Normal a, h).

Definition throw {A : Type} (e : exn) : st A := fun h => (Throw e, h).

Definition bind {A B : Type} (m : st A) (f : A -> st B) : st B :=
  fun h =>
    match m h with
    | (Normal a, h') => f a h'
    | (Throw e, h') => (Throw e, h')
    end.

Local Notation "x <~ m ;; k" := (bind m (fun x => k))
  (at level 61, m at next level, right associativity).

Definition lift {A : Type} (c : completion A) : st A := fun h => (c, h).

Definition alloc (c : cell) : st ref :=
  fun h => (Normal (List.length h), (h ++ [c])%list).

Definition read (r : ref) : st cell :=
  fun h =>
    match nth_error h r with
    | Some c => (Normal c, h)
    | None => (Throw TypeError, h)
    end.

Fixpoint update (r : ref) (c : cell) (h : store) : store :=
  match h, r with
  | [], _ => []
  | _ :: h', O => c :: h'
  | c' :: h', S r' => c' :: update r' c h'
  end.

Definition write (r : ref) (c : cell) : st unit :=
  fun h => (Normal tt, update r c h).

Definition read_binding (r : ref) : st number :=
  c <~ read r ;;
  match c with
  | Binding value => ret value
  | _ => throw TypeError
  end.

Definition read_array (r : ref) : st (list string) :=
  c <~ read r ;;
  match c with
  | Array elements => ret elements
  | _ => throw TypeError
  end.

(** [s.split(sep)] makes a new array. *)
Definition split (sep : ascii) (s : string) : st ref :=
  alloc (Array (JS.split sep s)).

(** [array.reverse()] reverses the array in place and returns it. *)
Definition reverse (array : ref) : st ref :=
  elements <~ read_array array ;;
  _ <~ write array (Array (rev elements)) ;;
  ret array.

(** [array.forEach(callback)]: the length is read once, each element when
    its turn comes. *)
Fixpoint forEach_from (callback : string -> nat -> st unit) (array : ref)
  (count index : nat) : st unit :=
  match count with
  | O => ret tt
  | S count' =>
      elements <~ read_array array ;;
      _ <~ match nth_error elements index with
           | Some element => callback element index
           | None => ret tt
           end ;;
      forEach_from callback array count' (S index)
  end.

Definition forEach (array : ref) (callback : string -> nat -> st unit)
  : st unit :=
  elements <~ read_array array ;;
  forEach_from callback array (List.length elements) 0%nat.

(** A regular expression literal makes a new object, [lastIndex] 0. *)
Definition literal (pattern : regex) (global : bool) : st ref :=
  alloc (RegExp pattern global 0).

(** [s.match(r)] for an object without the flag [g], as the module
    calls it: [lastIndex] is neither used nor written. *)
Definition string_match (s : string) (r : ref) : st (option match_result) :=
  c <~ read r ;;
  match c with
  | RegExp pattern false _ => ret (exec pattern s)
  | _ => throw TypeError
  end.

(** [s.replace(r, replacement)] for an object with the flag [g], as the
    module calls it: [lastIndex] is set to 0 before the first match is
    looked for, and the match that fails at the end leaves it at 0. *)
Definition replace (s : string) (r : ref) (replacement : string)
  : st string :=
  c <~ read r ;;
  match c with
  | RegExp pattern true _ =>
      _ <~ write r (RegExp pattern true 0) ;;
      ret (replace_global s pattern replacement)
  | _ => throw TypeError
  end.

Definition parseDuration (lengthText : option string)
  : st (option number) :=
  if negb (truthy_string lengthText) then ret None
  else
    text <~ lift (deref lengthText) ;;
    parts <~ split ":" text ;;
    parts <~ reverse parts ;;
    seconds <~ alloc (Binding (Num 0)) ;;
    _ <~ forEach parts (fun part index =>
           value <~ read_binding seconds ;;
           write seconds
             (Binding (add value (mul (parseInt part) (pow 60 index))))) ;;
    value <~ read_binding seconds ;;
    ret (Some value).

Definition parseViewCount (viewCountText : option string)
  : st (option number) :=
  if negb (truthy_string viewCountText) then ret None
  else
    text <~ lift (deref viewCountText) ;;
    pattern <~ literal digits_and_commas false ;;
    match_ <~ string_match text pattern ;;
    if truthy_object match_ then
      m <~ lift (deref match_) ;;
      commas <~ literal comma true ;;
      digits <~ replace (matched m) commas "" ;;
      ret (Some (parseInt digits))
    else ret None.

Definition formatImageQuality (width : number) : st string :=
  ret (YouTubeHelper.formatImageQuality width).

Definition formatDuration (isoDuration : string) : st string :=
  pattern <~ literal iso_duration false ;;
  match_ <~ string_match isoDuration pattern ;;
  if negb (truthy_object match_) then ret "0:00"
  else
    m <~ lift (deref match_) ;;
    let hours := group_number (group 1 m) in
    let minutes := group_number (group 2 m) in
    let seconds := group_number (group 3 m) in
    if gtb hours (Num 0) then
      ret (toString hours ++ ":"
           ++ padStart 2 "0" (toString minutes) ++ ":"
           ++ padStart 2 "0" (toString seconds))
    else
      ret (toString minutes ++ ":" ++ padStart 2 "0" (toString seconds)).

(** One call of an operation on a store. *)
Definition call (op : operation) : st value :=
  match op with
  | ParseDuration lengthText =>
      r <~ parseDuration lengthText ;; ret (nullable r)
  | ParseViewCount viewCountText =>
      r <~ parseViewCount viewCountText ;; ret (nullable r)
  | FormatImageQuality width =>
      r <~ formatImageQuality width ;; ret (VString r)
  | FormatDuration isoDuration =>
      r <~ formatDuration isoDuration ;; ret (VString r)
  end.

End Stateful.

(* ================================================================== *)
(** ** Link derivation *)
(* ================================================================== *)

Module LinkDerivation.
Import JS Reference.

Inductive error : Type :=
| DecodeError
| DecryptError.

Inductive result (A : Type) : Type :=
| Ok (a : A)
| Err (e : error).

Arguments Ok {A} a.
Arguments Err {A} e.

(** The value of a code unit of the base64 alphabet. *)
Definition sextet (c : ascii) : option N :=
  if between 65 90 c then Some (code c - 65)%N
  else if between 97 122 c then Some (code c - 71)%N
  else if between 48 57 c then Some (code c + 4)%N
  else if Ascii.eqb c "+" then Some 62%N
  else if Ascii.eqb c "/" then Some 63%N
  else None.

(** The bytes of one group of four code units; [=] pads the last group. *)
Definition quad (last : bool) (a b c d : ascii) : option (list N) :=
  match sextet a, sextet b with
  | Some x, Some y =>
      let b0 := (x * 4 + y / 16)%N in
      if last && Ascii.eqb c "=" && Ascii.eqb d "=" then Some [b0]
      else
        match sextet c with
        | Some z =>
            let b1 := ((y mod 16) * 16 + z / 4)%N in
            if last && Ascii.eqb d "=" then Some [b0; b1]
            else
              match sextet d with
              | Some w => Some [b0; b1; ((z mod 4) * 64 + w)%N]
              | None => None
              end
        | None => None
        end
  | _, _ => None
  end.

Fixpoint base64_decode (s : string) : option (list N) :=
  match s with
  | "" => Some []
  | String a (String b (String c (String d rest))) =>
      match rest with
      | "" => quad true a b c d
      | _ =>
          match quad false a b c d, base64_decode rest with
          | Some bytes, Some more => Some (bytes ++ more)%list
          | _, _ => None
          end
      end
  | _ => None
  end.

Definition block_size : nat := 8.

(** The bytes cut into blocks of [block_size]. *)
Fixpoint blocks (fuel : nat) (bytes : list N) : list (list N) :=
  match fuel, bytes with
  | S fuel', _ :: _ =>
      firstn block_size bytes :: blocks fuel' (skipn block_size bytes)
  | _, _ => []
  end.

(** PKCS unpadding: the last byte [n], between 1 and the block size, says
    how many bytes to drop, and each of them is [n]. *)
Definition unpad (bytes : list N) : option (list N) :=
  match rev bytes with
  | [] => None
  | n :: _ =>
      let k := N.to_nat n in
      if (1 <=? k)%nat && (k <=? block_size)%nat
         && (k <=? List.length bytes)%nat
         && forallb (N.eqb n) (skipn (List.length bytes - k) bytes)
      then Some (firstn (List.length bytes - k) bytes)
      else None
  end.

Definition text_of_bytes (bytes : list N) : string :=
  string_of_list_ascii (map ascii_of_N bytes).

(** Every occurrence of [needle] in [s], from the left, replaced. *)
Fixpoint replace_all (fuel : nat) (needle replacement s : string) : string :=
  match fuel, s with
  | S fuel', String c s' =>
      if prefix needle s && negb (String.eqb needle "") then
        replacement
        ++ replace_all fuel' needle replacement
             (substring (String.length needle)
                (String.length s - String.length needle) s)
      else String c (replace_all fuel' needle replacement s')
  | _, _ => s
  end.

Record DerivedLink : Type := {
  tier : N;
  link_url : string
}.

Section Derive.
(** Decryption of one block under the fixed key, and the placeholder of
    the URL template: constants of the upstream scheme. *)
Variable decrypt_block : list N -> list N.
Variable placeholder : string.

(** Modelled from the spec: the link derivation ([createDownloadLinks] is
    not among the source files).  The token is decoded from base64, which
    fails with [DecodeError] when the text is not base64 or the bytes are
    not a whole number of 8-byte blocks; the blocks are decrypted one by
    one (electronic codebook) and unpadded, which fails with
    [DecryptError]; the text is the URL template, and each tier, in the
    order given, yields the template with every placeholder replaced by
    the tier in decimal. *)
Definition deriveLinks (token : string) (tiers : list N)
  : result (list DerivedLink) :=
  match base64_decode token with
  | None => Err DecodeError
  | Some bytes =>
      if (List.length bytes mod block_size =? 0)%nat then
        let decrypted :=
          flat_map decrypt_block (blocks (List.length bytes) bytes) in
        match unpad decrypted with
        | None => Err DecryptError
        | Some plain =>
            let template := text_of_bytes plain in
            Ok (map
                  (fun t =>
                     {| tier := t;
                        link_url :=
                          replace_all (String.length template) placeholder
                            (decimal_string t) template |})
                  tiers)
        end
      else Err DecodeError
  end.
End Derive.

End LinkDerivation.


(* ================================================================== *)
(** ** More of the ECMAScript fragment *)
(* ================================================================== *)

Module JSArray.
Import JS.

Definition negate (a : number) : number :=
  match a with
  | NaN => NaN
  | Num x => Num (- x)
  | Infinity s => Infinity (negb s)
  end.

(** [a - b] *)
Definition sub (a b : number) : number := add a (negate b).

(** [value || 0] for a [number | undefined]: [undefined], [NaN] and 0 are
    falsy.  The value is a double: an integer is taken as the double it is
    read as. *)
Definition or_zero_number (v : option number) : number :=
  match v with
  | Some (Num z) => to_double z
  | Some (Infinity s) => Infinity s
  | _ => Num 0
  end.

(** [array.sort(compare)].  The sort is stable and puts [a] after [b] only
    when [compare(a, b) > 0]; for a comparator that orders the elements
    consistently, as a difference of keys does, this fixes the result,
    which is computed here by insertion from the right. *)
Fixpoint sort_insert {A : Type} (compare : A -> A -> number) (x : A)
  (sorted : list A) : list A :=
  match sorted with
  | [] => [x]
  | y :: sorted' =>
      if gtb (compare x y) (Num 0) then y :: sort_insert compare x sorted'
      else x :: sorted
  end.

Definition sort {A : Type} (compare : A -> A -> number) (array : list A)
  : list A :=
  fold_right (sort_insert compare) [] array.

(** [array.join(separator)] *)
Fixpoint join (separator : string) (array : list string) : string :=
  match array with
  | [] => ""
  | [s] => s
  | s :: array' => s ++ separator ++ join separator array'
  end.

Fixpoint reverse_string (s acc : string) : string :=
  match s with
  | String c s' => reverse_string s' (String c acc)
  | "" => acc
  end.

(** [s.trim()]: white space and line terminators dropped at both ends. *)
Definition trim (s : string) : string :=
  reverse_string (trim_start (reverse_string (trim_start s) "")) "".

(** A plain object with text values: its properties in order. *)
Definition object : Type := list (string * string).

Fixpoint get (key : string) (o : object) : option string :=
  match o with
  | [] => None
  | (k, v) :: o' => if String.eqb k key then Some v else get key o'
  end.

(** [o[key] = value]: an existing property keeps its place. *)
Fixpoint put (key value : string) (o : object) : object :=
  match o with
  | [] => [(key, value)]
  | (k, v) :: o' =>
      if String.eqb k key then (k, value) :: o'
      else (k, v) :: put key value o'
  end.

(** [{...a, ...b}]: the properties of [a], then those of [b] assigned in
    order. *)
Definition spread (a b : object) : object :=
  fold_left (fun o kv => put (fst kv) (snd kv) o) b a.

(** [searchParams.set(name, value)]: the first pair named [name] takes the
    value and the others are removed; without one the pair is appended. *)
Fixpoint remove_name (name : string) (params : list (string * string))
  : list (string * string) :=
  match params with
  | [] => []
  | (k, v) :: params' =>
      if String.eqb k name then remove_name name params'
      else (k, v) :: remove_name name params'
  end.

Fixpoint searchParams_set (name value : string)
  (params : list (string * string)) : list (string * string) :=
  match params with
  | [] => [(name, value)]
  | (k, v) :: params' =>
      if String.eqb k name then (k, value) :: remove_name name params'
      else (k, v) :: searchParams_set name value params'
  end.

End JSArray.

(* ================================================================== *)
(** ** common/utils/spawn: getYouTubeStreamUrl *)
(* ================================================================== *)

Module Spawn.
Import JS JSArray.

(** A format of the video info, as far as the lookup reads it:
    [hasAudio] and [hasVideo] by their truthiness. *)
Record Format : Type := {
  hasAudio : bool;
  hasVideo : bool;
  bitrate : option number;
  format_url : option string
}.

(** The bitrate a format is sorted by: [bitrate || 0] as an integer, the
    infinite bitrates next to the finite ones. *)
Definition bitrate_key (f : Format) : Z :=
  match or_zero_number (bitrate f) with
  | Num z => z
  | Infinity false => 2 ^ 1024
  | Infinity true => - 2 ^ 1024
  | NaN => 0
  end.

(** [(a, b) => (b.bitrate || 0) - (a.bitrate || 0)] *)
Definition by_bitrate (a b : Format) : number :=
  sub (or_zero_number (bitrate b)) (or_zero_number (bitrate a)).

Definition user_agent : string :=
  "Mozilla/5.0 (Windows NT 10.0; Win64; x64) AppleWebKit/537.36 (KHTML, like Gecko) Chrome/120.0.0.0 Safari/537.36".

(** The options of a request, as far as [rewriteRequest] reads them: the
    headers, a plain object or [undefined], and the other properties. *)
Record RequestInit : Type := {
  init_headers : option object;
  init_others : object
}.

(** [rewriteRequest], for the cookies [ytCookies] of the environment. *)
Definition rewriteRequest (ytCookies : string) (url : string)
  (options : RequestInit) : string * RequestInit :=
  let headers :=
    [("User-Agent", user_agent);
     ("Accept-Language", "en-US,en;q=0.9");
     ("Accept", "*/*")] in
  let headers :=
    if truthy_string (Some ytCookies) then put "Cookie" ytCookies headers
    else headers in
  (url,
   {| init_headers :=
        Some (spread
                match init_headers options with
                | Some h => h
                | None => []
                end
                headers);
      init_others := init_others options |}).

(** [getYouTubeStreamUrl]: [getBasicInfo] is the lookup of the video info
    by the client built from the options, whose promise is fulfilled with
    the formats of the info or rejected. *)
Definition getYouTubeStreamUrl
  (getBasicInfo : string -> completion (list Format)) (videoId : string)
  : completion string :=
  let videoUrl := "https://www.youtube.com/watch?v=" ++ videoId in
  formats <- getBasicInfo videoUrl ;;
  let audioFormat :=
    hd_error
      (sort by_bitrate
         (filter (fun f => hasAudio f && negb (hasVideo f)) formats)) in
  let usable (f : option Format) : bool :=
    match f with
    | Some f => truthy_string (format_url f)
    | None => false
    end in
  let url_of (f : option Format) : completion string :=
    f' <- deref f ;; Normal (ToString (format_url f')) in
  if usable audioFormat then url_of audioFormat
  else
    let anyFormat :=
      hd_error (sort by_bitrate (filter (fun f => hasAudio f) formats)) in
    if negb (usable anyFormat) then Throw (Error "No suitable format found")
    else url_of anyFormat.

End Spawn.

(* ================================================================== *)
(** ** services/youtube.service.ts: the methods of YouTubeService *)
(* ================================================================== *)

Module YouTubeServiceMethods.
Import JS JSArray Models YouTubeHelper YouTubeService Spawn.

(** *** The outside world *)

(** A [URL]: the text it was built from and its search parameters. *)
Record URL : Type := {
  href : string;
  searchParams : list (string * string)
}.

Definition new_URL (text : string) : URL :=
  {| href := text; searchParams := [] |}.

Definition set_param (name value : string) (url : URL) : URL :=
  {| href := href url;
     searchParams := searchParams_set name value (searchParams url) |}.

(** The response of [fetch]: [json] is the outcome of [response.json()]. *)
Record Response (Body : Type) : Type := {
  ok : bool;
  status : Z;
  json : completion Body
}.

Arguments ok {Body} r.
Arguments status {Body} r.
Arguments json {Body} r.

(** The body the search endpoint answers with, as far as the service
    reads it: [items] may be missing, and so may [id.videoId] of an item. *)
Record SearchItem : Type := {
  videoId : option string
}.

Record SearchBody : Type := {
  search_items : option (list SearchItem);
  nextPageToken : option string
}.

(** An item of the videos endpoint; [thumbnails] are the values of
    [snippet.thumbnails] in the order of [Object.values], [viewCount] is
    [statistics?.viewCount]. *)
Record VideoItem : Type := {
  item_id : string;
  title : string;
  thumbnails : list Thumbnail;
  channelTitle : string;
  channelId : string;
  item_description : string;
  publishedAt : option string;
  liveBroadcastContent : string;
  statistics_viewCount : option string;
  contentDetails_duration : string
}.

Record VideosBody : Type := {
  video_items : option (list VideoItem)
}.

(** What a call leaves behind: the requests it sent and the lines it
    wrote with [console.error]. *)
Inductive detail : Type :=
| OfError (e : exn)
| OfNumber (n : number).

Inductive event : Type :=
| Fetched (url : URL)
| ConsoleError (text : string) (d : detail).

(** A call that settles, with its events in order. *)
Definition io (A : Type) : Type := completion A * list event.

Definition ret {A : Type} (a : A) : io A := (Normal a, []).

Definition throw {A : Type} (e : exn) : io A := (Throw e, []).

Definition io_bind {A B : Type} (m : io A) (f : A -> io B) : io B :=
  match m with
  | (Normal a, events) =>
      let '(r, events') := f a in (r, (events ++ events')%list)
  | (Throw e, events) => (Throw e, events)
  end.

(** [try { m } catch (error) { handler }] *)
Definition try_catch {A : Type} (m : io A) (handler : exn -> io A) : io A :=
  match m with
  | (Throw e, events) =>
      let '(r, events') := handler e in (r, (events ++ events')%list)
  | settled => settled
  end.

Definition console_error (text : string) (d : detail) : io unit :=
  (Normal tt, [ConsoleError text d]).

(** [await Promise.all(promises)]: every promise runs; the values come in
    the order of the promises, and a rejected promise, the first of the
    list here, rejects the whole.  The events of the promises are listed
    promise after promise; the console shows them in the order in which
    the promises settle, which the statements below do not depend on. *)
Definition Promise_all {A : Type} (promises : list (io A)) : io (list A) :=
  (fold_right
     (fun p settled =>
        match fst p, settled with
        | Normal a, Normal rest => Normal (a :: rest)
        | Throw e, _ => Throw e
        | Normal _, Throw e => Throw e
        end)
     (Normal []) promises,
   List.concat (map snd promises)).

Section Service.
(** The key of the instance, the two endpoints behind [fetch], each with
    the body it answers with, and the lookup of the video info; a promise
    of the outside world is fulfilled or rejected as a function of what is
    asked.  The abort of a request after ten seconds is one of the ways
    the promise of [fetch] is rejected. *)
Variable apiKey : string.
Variable fetch_search : URL -> completion (Response SearchBody).
Variable fetch_videos : URL -> completion (Response VideosBody).
Variable getBasicInfo : string -> completion (list Format).

Definition fetch {Body : Type}
  (endpoint : URL -> completion (Response Body)) (url : URL)
  : io (Response Body) :=
  (endpoint url, [Fetched url]).

Definition await {A : Type} (c : completion A) : io A := (c, []).

Definition transform (video : YouTubeVideoAPIResponse)
  (includeStreamUrl : bool) : io YouTubeVideo :=
  let '(r, console) :=
    transformYouTubeVideo (getYouTubeStreamUrl getBasicInfo) video
      includeStreamUrl in
  (r,
   map (fun line => ConsoleError (log_text line) (OfError (log_error line)))
     console).

(** The callback of [getVideosByIds]: the record built from an item. *)
Definition apiVideo_of (item : VideoItem) : completion YouTubeVideoAPIResponse :=
  lengthText <- formatDuration (contentDetails_duration item) ;;
  Normal
    {| api_id := item_id item;
       api_title := title item;
       api_thumbnails :=
         map (fun thumb =>
                {| thumb_url := thumb_url thumb;
                   thumb_width := thumb_width thumb;
                   thumb_height := thumb_height thumb |})
           (thumbnails item);
       api_channelTitle := channelTitle item;
       api_channelId := channelId item;
       api_description := item_description item;
       api_viewCount := statistics_viewCount item;
       api_publishDate := publishedAt item;
       api_publishedText := None;
       api_lengthText := Some lengthText;
       api_isLive := Some (String.eqb (liveBroadcastContent item) "live") |}.

Definition getVideosByIds (videoIds : list string) (includeStreamUrl : bool)
  : io (list YouTubeVideo) :=
  let validIds :=
    filter
      (fun id =>
         truthy_string (Some id) && negb (String.eqb (trim id) ""))
      videoIds in
  if (List.length validIds =? 0)%nat then ret []
  else
    try_catch
      (let url := new_URL "https://www.googleapis.com/youtube/v3/videos" in
       let url := set_param "part" "snippet,contentDetails,statistics" url in
       let url := set_param "id" (join "," validIds) url in
       let url := set_param "key" apiKey url in
       io_bind (fetch fetch_videos url) (fun response =>
       if negb (ok response) then
         throw
           (Error ("YouTube API error: " ++ toString (Num (status response))))
       else
         io_bind (await (json response)) (fun data =>
         io_bind (await (deref (video_items data))) (fun items =>
         Promise_all
           (map
              (fun item =>
                 io_bind (await (apiVideo_of item)) (fun apiVideo =>
                 transform apiVideo includeStreamUrl))
              items)))))
      (fun error =>
         io_bind (console_error "Failed to get video details:" (OfError error))
           (fun _ => throw (Error "Failed to fetch video details"))).

(** The ids of the items of a search body: [item.id.videoId], the falsy
    ones dropped. *)
Definition videoIds_of (items : list SearchItem) : list string :=
  map ToString
    (filter truthy_string (map videoId items)).

Definition searchVideos (query : string) (limit : number)
  (includeStreamUrl : bool) : io (list YouTubeVideo * option string) :=
  try_catch
    (let url := new_URL "https://www.googleapis.com/youtube/v3/search" in
     let url := set_param "part" "snippet" url in
     let url := set_param "q" query url in
     let url := set_param "maxResults" (toString limit) url in
     let url := set_param "type" "video" url in
     let url := set_param "key" apiKey url in
     io_bind (fetch fetch_search url) (fun response =>
     if negb (ok response) then
       throw
         (Error ("YouTube API error: " ++ toString (Num (status response))))
     else
       io_bind (await (json response)) (fun data =>
       match search_items data with
       | None | Some [] => ret ([], None)
       | Some items =>
           let videoIds := videoIds_of items in
           if (List.length videoIds =? 0)%nat
           then ret ([], nextPageToken data)
           else
             io_bind (getVideosByIds videoIds includeStreamUrl)
               (fun videos => ret (videos, nextPageToken data))
       end)))
    (fun error =>
       io_bind (console_error "YouTube search error:" (OfError error))
         (fun _ => throw (Error "Failed to search YouTube videos"))).

Definition getVideoById (videoId : string) (includeStreamUrl : bool)
  : io YouTubeVideo :=
  try_catch
    (io_bind (getVideosByIds [videoId] includeStreamUrl) (fun videos =>
     match videos with
     | [] => throw (Error "Video not found")
     | video :: _ => ret video
     end))
    (fun error =>
       io_bind
         (console_error ("Failed to get video " ++ videoId ++ ":")
            (OfError error))
         (fun _ => throw (Error "Failed to fetch YouTube video details"))).

Definition getStreamUrl (videoId : string) : io string :=
  try_catch
    (await (getYouTubeStreamUrl getBasicInfo videoId))
    (fun error =>
       io_bind
         (console_error ("Failed to get stream URL for " ++ videoId ++ ":")
            (OfError error))
         (fun _ => throw (Error "Failed to get YouTube stream URL"))).

Definition getSuggestions (videoId : string) (limit : number)
  : io (list YouTubeVideo) :=
  try_catch
    (let url := new_URL "https://www.googleapis.com/youtube/v3/search" in
     let url := set_param "part" "snippet" url in
     let url := set_param "relatedToVideoId" videoId url in
     let url := set_param "type" "video" url in
     let url := set_param "maxResults" (toString limit) url in
     let url := set_param "key" apiKey url in
     io_bind (fetch fetch_search url) (fun response =>
     if negb (ok response) then
       io_bind
         (console_error "Failed to get suggestions:"
            (OfNumber (Num (status response))))
         (fun _ => ret [])
     else
       io_bind (await (json response)) (fun data =>
       match search_items data with
       | None | Some [] => ret []
       | Some items => getVideosByIds (videoIds_of items) false
       end)))
    (fun error =>
       io_bind
         (console_error ("Failed to get suggestions for " ++ videoId ++ ":")
            (OfError error))
         (fun _ => ret [])).

End Service.
End YouTubeServiceMethods.

(* ================================================================== *)
(** ** controllers/youtube.controller.ts: the route handlers *)
(* ================================================================== *)

Module YouTubeController.
Import JS Models Spawn YouTubeServiceMethods.

(** The JSON bodies the handlers answer with. *)
Inductive body : Type :=
| Videos (data : list YouTubeVideo)
| Video (data : YouTubeVideo)
| StreamUrl (streamUrl : string)
| Failure (message : string).

Record reply : Type := {
  http_status : Z;
  reply_body : body
}.

(** [success] of a body. *)
Definition success (b : body) : bool :=
  match b with
  | Failure _ => false
  | _ => true
  end.

(** The query parameter [limit]: optional, [10] by default, read with
    [Number.parseInt]. *)
Definition limit_of (raw : option string) : number :=
  parseInt match raw with Some v => v | None => "10" end.

(** The query parameter [stream]: optional, with the default of the
    route, true when it is the text [true]. *)
Definition stream_of (default : string) (raw : option string) : bool :=
  String.eqb match raw with Some v => v | None => default end "true".

Section Handlers.
Variable apiKey : string.
Variable fetch_search : URL -> completion (Response SearchBody).
Variable fetch_videos : URL -> completion (Response VideosBody).
Variable getBasicInfo : string -> completion (list Format).

(** A handler answers and leaves the events of the service behind; a
    handler that throws leaves the answer to the framework. *)
Definition handler : Type := completion reply * list event.

Definition answer (m : io reply) (on_error : exn -> reply) : handler :=
  match m with
  | (Normal r, events) => (Normal r, events)
  | (Throw e, events) => (Normal (on_error e), events)
  end.

(** GET /youtube/search *)
Definition searchYouTube (query : string) (limit : option string)
  (stream : option string) : handler :=
  let limit := limit_of limit in
  let stream := stream_of "false" stream in
  if negb (truthy_string (Some query)) then
    (Normal {| http_status := 400;
               reply_body := Failure "Query parameter is required" |}, [])
  else
    answer
      (io_bind
         (searchVideos apiKey fetch_search fetch_videos getBasicInfo
            query limit stream)
         (fun result =>
            ret {| http_status := 200; reply_body := Videos (fst result) |}))
      (fun _ => {| http_status := 500; reply_body := Failure "Search failed" |}).

(** GET /youtube/video/:id *)
Definition getYouTubeVideo (id : string) (stream : option string)
  : handler :=
  let stream := stream_of "true" stream in
  answer
    (io_bind (getVideoById apiKey fetch_videos getBasicInfo id stream)
       (fun video => ret {| http_status := 200; reply_body := Video video |}))
    (fun _ => {| http_status := 404; reply_body := Failure "Video not found" |}).

(** GET /youtube/stream/:id *)
Definition getYouTubeStream (id : string) : handler :=
  answer
    (io_bind (getStreamUrl getBasicInfo id)
       (fun streamUrl =>
          ret {| http_status := 200; reply_body := StreamUrl streamUrl |}))
    (fun _ =>
       {| http_status := 404; reply_body := Failure "Stream not available" |}).

(** GET /youtube/suggestions/:id: no [try], a rejection of the service
    leaves the handler. *)
Definition getYouTubeSuggestions (id : string) (limit : option string)
  : handler :=
  let limit := limit_of limit in
  io_bind
    (getSuggestions apiKey fetch_search fetch_videos getBasicInfo id limit)
    (fun suggestions =>
       ret {| http_status := 200; reply_body := Videos suggestions |}).

End Handlers.
End YouTubeController.

(* ================================================================== *)
(** ** Reference definitions for the service *)
(* ================================================================== *)

Module ServiceReference.
Import JS Reference Models YouTubeServiceMethods.

(** The seconds an ISO duration counts for the service: those of the
    groups read after the first [PT], and 0 when [PT] does not occur. *)
Definition iso_seconds (isoDuration : string) : Z :=
  match after_PT isoDuration with
  | None => 0
  | Some t =>
      let '(h, m, s) := iso_groups t in
      group_value h * 3600 + group_value m * 60 + group_value s
  end.

(** What the service makes of one item of the videos endpoint; the
    duration is the number of seconds when that is an integer a double
    holds exactly. *)
Definition video_of_item (includeStreamUrl : bool) (item : VideoItem)
  (video : YouTubeVideo) : Prop :=
  id video = item_id item
  /\ name video = title item
  /\ url video = "https://www.youtube.com/watch?v=" ++ item_id item
  /\ duration video <> None
  /\ (iso_seconds (contentDetails_duration item) < 2 ^ 53 ->
      duration video
      = Some (Num (iso_seconds (contentDetails_duration item))))
  /\ isLive video = String.eqb (liveBroadcastContent item) "live"
  /\ List.length (image video) = List.length (thumbnails item)
  /\ (includeStreamUrl = false -> streamUrl video = None).

(** A line of [console.error], as opposed to a request. *)
Definition console_line (ev : event) : bool :=
  match ev with
  | ConsoleError _ _ => true
  | Fetched _ => false
  end.

(** The ids the service asks the videos endpoint for: those that are not
    made of white space only. *)
Definition blank (id : string) : bool := all_chars is_white_space id.

Definition videos_url (apiKey : string) (ids : list string) : URL :=
  {| href := "https://www.googleapis.com/youtube/v3/videos";
     searchParams :=
       [("part", "snippet,contentDetails,statistics");
        ("id", JSArray.join "," ids);
        ("key", apiKey)] |}.

Definition search_url (apiKey query maxResults : string) : URL :=
  {| href := "https://www.googleapis.com/youtube/v3/search";
     searchParams :=
       [("part", "snippet"); ("q", query); ("maxResults", maxResults);
        ("type", "video"); ("key", apiKey)] |}.

Definition related_url (apiKey videoId maxResults : string) : URL :=
  {| href := "https://www.googleapis.com/youtube/v3/search";
     searchParams :=
       [("part", "snippet"); ("relatedToVideoId", videoId);
        ("type", "video"); ("maxResults", maxResults); ("key", apiKey)] |}.

End ServiceReference.

(* ================================================================== *)
(** ** Facts about the matcher *)
(* ================================================================== *)

Module RegexFacts.
Import JS Reference YouTubeService.

Lemma repeat_matcher_class {R : Type} (p : ascii -> bool) :
  forall (fuel : nat) (s : string) (caps : captures)
         (k : string -> captures -> option R),
    (String.length s <= fuel)%nat ->
    repeat_matcher (matcher (Class p)) fuel s caps k = greedy_star p s caps k.
Proof.
  induction fuel as [|fuel IH]; intros s caps k Hlen.
  - destruct s; [reflexivity | simpl in Hlen; lia].
  - destruct s as [|a s']; [reflexivity|].
    simpl. destruct (p a); [|reflexivity].
    replace (String.length s' <? S (String.length s'))%nat with true
      by (symmetry; apply Nat.ltb_lt; lia).
    rewrite IH by (simpl in Hlen; lia). reflexivity.
Qed.

Lemma matcher_plus_class {R : Type} (p : ascii -> bool) (s : string)
  (caps : captures) (k : string -> captures -> option R) :
  matcher (Plus (Class p)) s caps k =
  match s with
  | String a s' => if p a then greedy_star p s' caps k else None
  | "" => None
  end.
Proof.
  destruct s as [|a s']; [reflexivity|].
  simpl. destruct (p a); [|reflexivity].
  apply repeat_matcher_class. lia.
Qed.

Lemma greedy_star_accept {R : Type} (p : ascii -> bool) :
  forall (s : string) (caps : captures)
         (k : string -> captures -> option R) (x : R),
    k (drop_while p s) caps = Some x ->
    greedy_star p s caps k = Some x.
Proof.
  induction s as [|a s' IH]; intros caps k x Hk; simpl in *.
  - assumption.
  - destruct (p a); [|assumption].
    rewrite (IH _ _ _ Hk). reflexivity.
Qed.

Lemma greedy_star_stop {R : Type} (p : ascii -> bool)
  (k : string -> captures -> option R) :
  (forall a t caps, p a = true -> k (String a t) caps = None) ->
  forall (s : string) (caps : captures),
    greedy_star p s caps k = k (drop_while p s) caps.
Proof.
  intros Hk. induction s as [|a s' IH]; intros caps; simpl.
  - reflexivity.
  - destruct (p a) eqn:Hp; [|reflexivity].
    rewrite IH. destruct (k (drop_while p s') caps); [reflexivity|].
    apply Hk, Hp.
Qed.

Lemma take_drop_while (p : ascii -> bool) (s : string) :
  take_while p s ++ drop_while p s = s.
Proof.
  induction s as [|a s' IH]; simpl; [reflexivity|].
  destruct (p a); simpl; [rewrite IH|]; reflexivity.
Qed.

Lemma length_append (a b : string) :
  String.length (a ++ b) = (String.length a + String.length b)%nat.
Proof.
  induction a as [|c a IH]; simpl; [reflexivity | rewrite IH; reflexivity].
Qed.

Lemma substring_prefix (pre rest : string) :
  substring 0 (String.length pre) (pre ++ rest) = pre.
Proof.
  induction pre as [|c pre IH]; simpl.
  - destruct rest; reflexivity.
  - rewrite IH. reflexivity.
Qed.

Lemma consumed_append (pre rest : string) : consumed (pre ++ rest) rest = pre.
Proof.
  unfold consumed. rewrite length_append.
  replace (String.length pre + String.length rest - String.length rest)%nat
    with (String.length pre) by lia.
  apply substring_prefix.
Qed.

Lemma consumed_drop_while (p : ascii -> bool) (s : string) :
  consumed s (drop_while p s) = take_while p s.
Proof.
  rewrite <- (take_drop_while p s) at 1. apply consumed_append.
Qed.

Lemma length_drop_while (p : ascii -> bool) (s : string) :
  (String.length (drop_while p s) <= String.length s)%nat.
Proof.
  induction s as [|a s' IH]; simpl; [lia|].
  destruct (p a); simpl; lia.
Qed.

(** exec of /[\d,]+/ *)
Lemma exec_plus_class (p : ascii -> bool) (s : string) :
  exec (Plus (Class p)) s =
  match first_run p s with
  | Some run => Some (MatchResult run [])
  | None => None
  end.
Proof.
  induction s as [|a s' IH].
  - reflexivity.
  - cbn [exec]. rewrite matcher_plus_class. cbn [first_run].
    destruct (p a) eqn:Hp.
    + erewrite greedy_star_accept by reflexivity.
      pose proof (consumed_drop_while p (String a s')) as H.
      simpl in H. rewrite Hp in H. simpl. rewrite Hp, H. reflexivity.
    + exact IH.
Qed.

Lemma replace_loop_chr (c : ascii) :
  forall (fuel : nat) (s : string),
    (String.length s < fuel)%nat ->
    replace_loop fuel (Chr c) "" s = remove_char c s.
Proof.
  induction fuel as [|fuel IH]; intros s Hlen; [lia|].
  destruct s as [|a s']; [reflexivity|].
  simpl in Hlen. cbn [replace_loop matcher remove_char].
  destruct (Ascii.eqb a c).
  - replace (String.length s' <? String.length (String a s'))%nat with true
      by (symmetry; apply Nat.ltb_lt; simpl; lia).
    simpl. apply IH. lia.
  - f_equal. apply IH. lia.
Qed.

Lemma replace_global_chr (c : ascii) (s : string) :
  replace_global s (Chr c) "" = remove_char c s.
Proof. apply replace_loop_chr. lia. Qed.

Lemma matcher_seq {R : Type} (r1 r2 : regex) s caps
  (k : string -> captures -> option R) :
  matcher (Seq r1 r2) s caps k =
  matcher r1 s caps (fun s' caps' => matcher r2 s' caps' k).
Proof. reflexivity. Qed.

Lemma matcher_group {R : Type} (n : nat) (r : regex) s caps
  (k : string -> captures -> option R) :
  matcher (Group n r) s caps k =
  matcher r s caps (fun s' caps' => k s' ((n, consumed s s') :: caps')).
Proof. reflexivity. Qed.

Lemma matcher_opt {R : Type} (r : regex) s caps
  (k : string -> captures -> option R) :
  matcher (Opt r) s caps k =
  match
    matcher r s caps (fun s' caps' =>
      if (String.length s' <? String.length s)%nat then k s' caps' else None)
  with
  | Some x => Some x
  | None => k s caps
  end.
Proof. reflexivity. Qed.

Lemma matcher_chr {R : Type} (c : ascii) s caps
  (k : string -> captures -> option R) :
  matcher (Chr c) s caps k =
  match s with
  | String a s' => if Ascii.eqb a c then k s' caps else None
  | "" => None
  end.
Proof. destruct s; reflexivity. Qed.

Lemma matcher_optional_group {R : Type} (n : nat) (u : ascii) (s : string)
  (caps : captures) (k : string -> captures -> option R) :
  is_digit u = false ->
  matcher (Opt (Seq (Group n (Plus (Class is_digit))) (Chr u))) s caps k =
  match unit_group u s with
  | Some (d, rest) =>
      match k rest ((n, d) :: caps) with
      | Some x => Some x
      | None => k s caps
      end
  | None => k s caps
  end.
Proof.
  intros Hu.
  rewrite matcher_opt, matcher_seq, matcher_group, matcher_plus_class.
  unfold unit_group.
  destruct s as [|a s']; [reflexivity|].
  cbn [take_while drop_while].
  destruct (is_digit a) eqn:Ha; [|reflexivity].
  rewrite greedy_star_stop.
  2:{ intros b t c Hb. rewrite matcher_chr.
      destruct (Ascii.eqb_spec b u); [congruence | reflexivity]. }
  rewrite matcher_chr.
  pose proof (consumed_drop_while is_digit (String a s')) as Hc.
  cbn [take_while drop_while] in Hc. rewrite Ha in Hc.
  pose proof (length_drop_while is_digit s') as Hl.
  destruct (drop_while is_digit s') as [|b rest] eqn:Hd; [reflexivity|].
  destruct (Ascii.eqb b u); [|reflexivity].
  rewrite Hc.
  replace (String.length rest <? String.length (String a s'))%nat with true
    by (symmetry; apply Nat.ltb_lt; simpl in *; lia).
  reflexivity.
Qed.

(** The captures left by the three optional groups. *)
Lemma matcher_iso_groups (t : string) :
  exists rest caps,
    matcher
      (Seq (Opt (Seq (Group 1 digits) (Chr "H")))
        (Seq (Opt (Seq (Group 2 digits) (Chr "M")))
             (Opt (Seq (Group 3 digits) (Chr "S")))))
      t [] (fun rest caps => Some (rest, caps)) = Some (rest, caps)
    /\ (capture 1 caps, capture 2 caps, capture 3 caps) = iso_groups t.
Proof.
  unfold digits, iso_groups, optional_group.
  repeat
    (first
       [ rewrite matcher_seq
       | rewrite matcher_optional_group by reflexivity
       | match goal with
         | |- context [unit_group ?u ?x] =>
             destruct (unit_group u x) as [[? ?]|]
         end ];
     cbv beta iota);
    eexists; eexists; split; reflexivity.
Qed.

Lemma after_PT_cons (a : ascii) (s : string) :
  after_PT (String a s) =
  if Ascii.eqb a "P" then
    match s with
    | String b t => if Ascii.eqb b "T" then Some t else after_PT s
    | "" => after_PT s
    end
  else after_PT s.
Proof.
  destruct (Ascii.eqb_spec a "P") as [->|Ha].
  - destruct s as [|b t]; [reflexivity|].
    destruct (Ascii.eqb_spec b "T") as [->|Hb]; [reflexivity|].
    destruct b as [[] [] [] [] [] [] [] []]; try reflexivity; congruence.
  - destruct a as [[] [] [] [] [] [] [] []]; try reflexivity; congruence.
Qed.

Lemma string_match_iso (s : string) :
  match after_PT s with
  | None => string_match s iso_duration = None
  | Some t =>
      exists m, string_match s iso_duration = Some m
                /\ (group 1 m, group 2 m, group 3 m) = iso_groups t
  end.
Proof.
  unfold string_match, iso_duration.
  induction s as [|a s IH]; [reflexivity|].
  rewrite after_PT_cons. cbn [exec].
  rewrite matcher_seq, matcher_chr.
  destruct (Ascii.eqb a "P").
  - rewrite matcher_seq, matcher_chr.
    destruct s as [|b t].
    + reflexivity.
    + destruct (Ascii.eqb b "T").
      * destruct (matcher_iso_groups t) as (rest & caps & Hm & Hg).
        rewrite Hm. eexists. split; [reflexivity|]. exact Hg.
      * exact IH.
  - exact IH.
Qed.

End RegexFacts.

(* ================================================================== *)
(** ** Facts about decimal texts and parseInt *)
(* ================================================================== *)

Module NumberFacts.
Import JS Reference.

(** *** Decimal texts *)

Lemma string_of_uint_digits (d : Decimal.uint) :
  all_chars is_digit (NilEmpty.string_of_uint d) = true.
Proof. induction d; simpl; auto. Qed.

Lemma of_lu_rev_cons (d e : Decimal.uint) :
  DecimalPos.Unsigned.of_lu (Decimal.revapp d e) =
  (DecimalPos.Unsigned.of_lu (Decimal.rev d)
   + DecimalPos.Unsigned.of_lu e * 10 ^ DecimalPos.Unsigned.usize d)%N.
Proof. apply DecimalPos.Unsigned.of_lu_revapp. Qed.

Lemma decimal_acc_string_of_uint (d : Decimal.uint) :
  forall acc : Z,
    decimal_acc (NilEmpty.string_of_uint d) acc =
    Z.of_N (DecimalPos.Unsigned.of_lu (Decimal.rev d))
    + acc * 10 ^ Z.of_N (DecimalPos.Unsigned.usize d).
Proof.
  induction d; intros acc; cbn [NilEmpty.string_of_uint decimal_acc];
    [ simpl; lia | .. ];
    rewrite IHd; unfold Decimal.rev at 2; cbn [Decimal.revapp];
    rewrite of_lu_rev_cons;
    cbn [DecimalPos.Unsigned.usize]; rewrite N2Z.inj_succ, Z.pow_succ_r by lia;
    rewrite N2Z.inj_add, N2Z.inj_mul, N2Z.inj_pow;
    set (P := 10 ^ Z.of_N (DecimalPos.Unsigned.usize d));
    set (Q := Z.of_N (DecimalPos.Unsigned.of_lu (Decimal.rev d)));
    match goal with
    | |- context [decimal_digit ?c] =>
        let v := eval vm_compute in (decimal_digit c) in
        change (decimal_digit c) with v
    end;
    match goal with
    | |- context [Z.of_N (DecimalPos.Unsigned.of_lu ?e)] =>
        let v := eval vm_compute in (Z.of_N (DecimalPos.Unsigned.of_lu e)) in
        change (Z.of_N (DecimalPos.Unsigned.of_lu e)) with v
    end;
    change (Z.of_N 10) with 10; fold P; lia.
Qed.

Lemma decimal_string_of_uint (d : Decimal.uint) :
  decimal (NilEmpty.string_of_uint d) = Z.of_N (N.of_uint d).
Proof.
  unfold decimal. rewrite decimal_acc_string_of_uint.
  unfold N.of_uint. rewrite DecimalPos.Unsigned.of_uint_alt. lia.
Qed.

Lemma decimal_string_eq (n : N) :
  decimal_string n = NilEmpty.string_of_uint (N.to_uint n).
Proof.
  unfold decimal_string, decimal_text.
  destruct n as [|p]; [reflexivity|]. cbn.
  pose proof (DecimalPos.Unsigned.to_uint_nonnil p) as Hp.
  destruct (Pos.to_uint p); [congruence | reflexivity ..].
Qed.

Lemma decimal_decimal_string (n : N) : decimal (decimal_string n) = Z.of_N n.
Proof.
  rewrite decimal_string_eq, decimal_string_of_uint, DecimalN.Unsigned.of_to.
  reflexivity.
Qed.

Lemma numeral_decimal_string (n : N) : numeral (decimal_string n) = true.
Proof.
  rewrite decimal_string_eq. unfold numeral.
  rewrite string_of_uint_digits. simpl.
  destruct n as [|p]; [reflexivity|]. cbn.
  pose proof (DecimalPos.Unsigned.to_uint_nonnil p) as Hp.
  destruct (Pos.to_uint p); [congruence | reflexivity ..].
Qed.

(** *** Doubles *)

Lemma to_double_safe (z : Z) : safe z -> to_double z = Num z.
Proof.
  unfold safe, to_double. intros H.
  destruct (Z.ltb_spec (Z.abs z) (2 ^ 53)); [reflexivity | lia].
Qed.

(** The significand and the exponent [to_double] works with. *)
Lemma to_double_large (z : Z) :
  2 ^ 53 <= Z.abs z ->
  exists m : Z,
    0 < m
    /\ to_double z =
       if 2 ^ 1024 <=? m then Infinity (z <? 0) else Num (Z.sgn z * m).
Proof.
  intros H. unfold to_double.
  destruct (Z.ltb_spec (Z.abs z) (2 ^ 53)) as [Hlt|_]; [lia|].
  cbv zeta.
  set (a := Z.abs z) in *.
  set (e := Z.log2 a - 52).
  set (q := a / 2 ^ e).
  match goal with
  | |- context [if ?c then q + 1 else q] =>
      set (q' := if c then q + 1 else q)
  end.
  exists (q' * 2 ^ e). split; [|reflexivity].
  assert (Ha : 0 < a) by (change (2 ^ 53) with 9007199254740992 in H; lia).
  assert (He : 0 <= e).
  { subst e. assert (53 <= Z.log2 a); [|lia].
    apply Z.log2_le_pow2; [exact Ha | exact H]. }
  assert (Hp : 0 < 2 ^ e) by (apply Z.pow_pos_nonneg; lia).
  assert (Hq : 1 <= q).
  { subst q. apply Z.div_le_lower_bound; [exact Hp|].
    rewrite Z.mul_1_r.
    transitivity (2 ^ Z.log2 a).
    - apply Z.pow_le_mono_r; subst e; lia.
    - apply Z.log2_spec, Ha. }
  assert (Hq' : 1 <= q').
  { subst q'. match goal with |- context [if ?c then _ else _] => destruct c end; lia. }
  nia.
Qed.

Lemma to_double_nonneg (z : Z) :
  0 <= z ->
  to_double z = Infinity false
  \/ exists m, 0 <= m /\ to_double z = Num m.
Proof.
  intros Hz. destruct (Z_lt_le_dec (Z.abs z) (2 ^ 53)) as [Hs|Hl].
  - right. exists z. split; [exact Hz | apply to_double_safe, Hs].
  - destruct (to_double_large z Hl) as (m & Hm & ->).
    assert (Hpos : 0 < z) by (change (2 ^ 53) with 9007199254740992 in Hl; lia).
    destruct (2 ^ 1024 <=? m).
    + left. destruct (Z.ltb_spec z 0); [lia | reflexivity].
    + right. exists (Z.sgn z * m). split; [|reflexivity].
      rewrite Z.sgn_pos by exact Hpos. lia.
Qed.

(** Rounding keeps the sign. *)
Lemma gtb_to_double (d : Z) : gtb (to_double d) (Num 0) = (0 <? d).
Proof.
  destruct (Z_lt_le_dec (Z.abs d) (2 ^ 53)) as [Hs|Hl].
  - rewrite to_double_safe by exact Hs. reflexivity.
  - destruct (to_double_large d Hl) as (m & Hm & ->).
    change (2 ^ 53) with 9007199254740992 in Hl.
    destruct (2 ^ 1024 <=? m); cbn [gtb].
    + destruct (Z.ltb_spec d 0), (Z.ltb_spec 0 d); try reflexivity; lia.
    + destruct (Z.ltb_spec 0 d) as [Hd|Hd].
      * rewrite Z.sgn_pos by exact Hd. apply Z.ltb_lt. lia.
      * rewrite Z.sgn_neg by lia. apply Z.ltb_ge. lia.
Qed.

(** A finite double is below 2^1024 in magnitude. *)
Lemma to_double_finite (z m : Z) :
  to_double z = Num m -> Z.abs m < 2 ^ 1024.
Proof.
  destruct (Z_lt_le_dec (Z.abs z) (2 ^ 53)) as [Hs|Hl].
  - rewrite to_double_safe by exact Hs. intros H. injection H as <-.
    assert (2 ^ 53 < 2 ^ 1024) by (apply Z.pow_lt_mono_r; lia). lia.
  - destruct (to_double_large z Hl) as (k & Hk & ->).
    destruct (Z.leb_spec (2 ^ 1024) k) as [|Hlt]; [discriminate|].
    intros H. injection H as <-.
    destruct (Z.sgn_spec z) as [(_ & ->)|[(_ & ->)|(_ & ->)]]; lia.
Qed.

Lemma toString_safe (z : Z) : safe z -> toString (Num z) = decimal_text z.
Proof.
  unfold safe, toString. intros H.
  destruct (Z.ltb_spec (Z.abs z) (2 ^ 53)); [reflexivity | lia].
Qed.

(** The powers of 60 that are finite doubles. *)
Lemma pow_60_finite (index : nat) :
  (index < 174)%nat -> exists m, 0 < m /\ pow 60 index = Num m.
Proof.
  intros H.
  assert (Hall :
    forallb
      (fun i => match pow 60 i with Num m => 0 <? m | _ => false end)
      (seq 0 174) = true) by (vm_compute; reflexivity).
  rewrite forallb_forall in Hall.
  specialize (Hall index). rewrite in_seq in Hall.
  specialize (Hall ltac:(lia)).
  destruct (pow 60 index) as [|m|]; try discriminate.
  exists m. split; [apply Z.ltb_lt, Hall | reflexivity].
Qed.

(** *** parseInt on digits *)

Lemma is_digit_code (a : ascii) :
  is_digit a = true <-> (48 <= code a <= 57)%N.
Proof.
  unfold is_digit, between. rewrite andb_true_iff, !N.leb_le. tauto.
Qed.

Lemma digit_not_white_space (a : ascii) :
  is_digit a = true -> is_white_space a = false.
Proof.
  rewrite is_digit_code. intros H. unfold is_white_space, between.
  destruct (N.leb_spec 9 (code a)), (N.leb_spec (code a) 13),
    (N.eqb_spec (code a) 32), (N.eqb_spec (code a) 160);
    simpl; try reflexivity; lia.
Qed.

Lemma digit_neq (a c : ascii) :
  is_digit a = true -> is_digit c = false -> Ascii.eqb a c = false.
Proof.
  intros Ha Hc. destruct (Ascii.eqb_spec a c); [congruence | reflexivity].
Qed.

Lemma digit_value_digit (a : ascii) :
  is_digit a = true -> digit_value a = Some (decimal_digit a).
Proof.
  intros Ha. unfold digit_value. fold (is_digit a). rewrite Ha. reflexivity.
Qed.

Lemma decimal_digit_range (a : ascii) :
  is_digit a = true -> 0 <= decimal_digit a < 10.
Proof. rewrite is_digit_code. unfold decimal_digit. lia. Qed.

Lemma math_int_radix_digits (s : string) :
  all_chars is_digit s = true ->
  forall acc : Z,
    fold_left (fun acc d => acc * 10 + d) (radix_digits 10 s) acc =
    decimal_acc s acc.
Proof.
  induction s as [|a s IH]; intros Hs acc; [reflexivity|].
  simpl in Hs. apply andb_true_iff in Hs. destruct Hs as [Ha Hs].
  cbn [radix_digits decimal_acc]. rewrite (digit_value_digit a Ha).
  pose proof (decimal_digit_range a Ha) as Hr.
  replace (decimal_digit a <? 10) with true by (symmetry; apply Z.ltb_lt; lia).
  cbn [fold_left]. apply IH, Hs.
Qed.

Lemma radix_digits_nonempty (a : ascii) (s : string) :
  is_digit a = true -> radix_digits 10 (String a s) <> [].
Proof.
  intros Ha. cbn [radix_digits]. rewrite (digit_value_digit a Ha).
  pose proof (decimal_digit_range a Ha) as Hr.
  replace (decimal_digit a <? 10) with true by (symmetry; apply Z.ltb_lt; lia).
  discriminate.
Qed.

(** [parseInt] of a text of decimal digits. *)
Lemma parseInt_digits (s : string) :
  all_chars is_digit s = true ->
  parseInt s = match s with "" => NaN | _ => to_double (decimal s) end.
Proof.
  intros Hs. destruct s as [|a s]; [reflexivity|].
  pose proof Hs as Hall.
  simpl in Hs. apply andb_true_iff in Hs. destruct Hs as [Ha Hs].
  unfold parseInt. cbn [trim_start]. rewrite (digit_not_white_space a Ha).
  rewrite !(digit_neq a _ Ha) by reflexivity.
  assert (Hprefix :
    match s with
    | String c1 s' =>
        if Ascii.eqb a "0" && (Ascii.eqb c1 "x" || Ascii.eqb c1 "X")
        then (16, s') else (10, String a s)
    | "" => (10, String a s)
    end = (10, String a s)).
  { destruct s as [|b s']; [reflexivity|].
    simpl in Hs. apply andb_true_iff in Hs. destruct Hs as [Hb _].
    rewrite !(digit_neq b _ Hb) by reflexivity.
    rewrite andb_false_r. reflexivity. }
  rewrite Hprefix.
  pose proof (radix_digits_nonempty a s Ha) as Hne.
  pose proof (math_int_radix_digits (String a s) Hall 0) as Hv.
  unfold math_int.
  destruct (radix_digits 10 (String a s)) as [|d ds]; [congruence|].
  rewrite Hv. unfold decimal. f_equal. lia.
Qed.

Lemma parseInt_numeral (d : string) :
  numeral d = true -> parseInt d = to_double (decimal d).
Proof.
  unfold numeral. intros H. apply andb_true_iff in H. destruct H as [Hd Hne].
  rewrite (parseInt_digits d Hd). destruct d; [discriminate | reflexivity].
Qed.

(** A numeral of at most 15 digits denotes an integer below 2^53, which is
    a double. *)
Lemma decimal_acc_bound (s : string) :
  all_chars is_digit s = true ->
  forall acc : Z,
    0 <= acc ->
    acc * 10 ^ Z.of_nat (String.length s) <= decimal_acc s acc
    /\ decimal_acc s acc < (acc + 1) * 10 ^ Z.of_nat (String.length s).
Proof.
  induction s as [|a s IH]; intros Hs acc Hacc.
  - simpl. lia.
  - simpl in Hs. apply andb_true_iff in Hs. destruct Hs as [Ha Hs].
    pose proof (decimal_digit_range a Ha) as Hr.
    cbn [decimal_acc String.length].
    rewrite Nat2Z.inj_succ, Z.pow_succ_r by lia.
    destruct (IH Hs (acc * 10 + decimal_digit a)) as [Hlo Hhi]; [lia|].
    assert (0 < 10 ^ Z.of_nat (String.length s)) by (apply Z.pow_pos_nonneg; lia).
    split; nia.
Qed.

Lemma decimal_nonneg (d : string) :
  all_chars is_digit d = true -> 0 <= decimal d.
Proof.
  intros H. destruct (decimal_acc_bound d H 0) as [Hlo _]; [lia|].
  unfold decimal. lia.
Qed.

Lemma numeral_nonneg (d : string) : numeral d = true -> 0 <= decimal d.
Proof.
  unfold numeral. intros H. apply andb_true_iff in H.
  apply decimal_nonneg, H.
Qed.

Lemma parseInt_numeral_exact (d : string) :
  numeral d = true -> decimal d < 2 ^ 53 -> parseInt d = Num (decimal d).
Proof.
  intros Hd Hlt. rewrite (parseInt_numeral d Hd).
  apply to_double_safe. unfold safe.
  pose proof (numeral_nonneg d Hd). lia.
Qed.

Lemma decimal_short (d : string) :
  numeral d = true -> (String.length d <= 15)%nat -> 0 <= decimal d < 2 ^ 53.
Proof.
  intros Hd Hlen.
  apply andb_true_iff in Hd. destruct Hd as [Hall _].
  destruct (decimal_acc_bound d Hall 0) as [Hlo Hhi]; [lia|].
  unfold decimal. split; [lia|].
  assert (10 ^ Z.of_nat (String.length d) <= 10 ^ 15)
    by (apply Z.pow_le_mono_r; lia).
  change (2 ^ 53) with 9007199254740992. change (10 ^ 15) with 1000000000000000 in *.
  lia.
Qed.

Lemma parseInt_numeral_safe (d : string) :
  numeral d = true -> (String.length d <= 15)%nat ->
  exists z, parseInt d = Num z /\ 0 <= z < 2 ^ 53.
Proof.
  intros Hd Hlen. exists (decimal d).
  pose proof (decimal_short d Hd Hlen) as Hr.
  split; [apply parseInt_numeral_exact; [exact Hd | lia] | exact Hr].
Qed.

End NumberFacts.

(* ================================================================== *)
(** ** Facts about durations *)
(* ================================================================== *)

Module DurationFacts.
Import JS Reference YouTubeHelper YouTubeService RegexFacts NumberFacts.

(** *** formatDuration through the reference reading of its pattern *)

Lemma all_chars_take_while (p : ascii -> bool) (s : string) :
  all_chars p (take_while p s) = true.
Proof.
  induction s as [|a s IH]; simpl; [reflexivity|].
  destruct (p a) eqn:Hp; simpl; [rewrite Hp, IH|]; reflexivity.
Qed.

Lemma unit_group_some (u : ascii) (s d rest : string) :
  unit_group u s = Some (d, rest) ->
  numeral d = true /\ s = d ++ String u rest.
Proof.
  unfold unit_group. intros H.
  pose proof (all_chars_take_while is_digit s) as Hall.
  pose proof (take_drop_while is_digit s) as Hs.
  destruct (take_while is_digit s) as [|a d0]; [discriminate|].
  destruct (drop_while is_digit s) as [|b r]; [discriminate|].
  destruct (Ascii.eqb_spec b u) as [->|]; [|discriminate].
  injection H as <- <-. split.
  - unfold numeral. rewrite Hall. reflexivity.
  - symmetry. exact Hs.
Qed.

Lemma optional_group_numeral (u : ascii) (s : string) :
  numeral_or_absent (fst (optional_group u s)) = true.
Proof.
  unfold optional_group.
  destruct (unit_group u s) as [[d rest]|] eqn:H; [|reflexivity].
  apply unit_group_some in H. apply H.
Qed.

Lemma iso_groups_numeral (t : string) :
  let '(h, m, s) := iso_groups t in
  numeral_or_absent h = true /\ numeral_or_absent m = true
  /\ numeral_or_absent s = true.
Proof.
  unfold iso_groups.
  pose proof (optional_group_numeral "H" t) as Hh.
  destruct (optional_group "H" t) as [h t1].
  pose proof (optional_group_numeral "M" t1) as Hm.
  destruct (optional_group "M" t1) as [m t2].
  pose proof (optional_group_numeral "S" t2) as Hs.
  destruct (optional_group "S" t2) as [s t3].
  auto.
Qed.

Lemma group_value_nonneg (g : option string) :
  numeral_or_absent g = true -> 0 <= group_value g.
Proof.
  destruct g as [d|]; simpl; [|lia].
  apply numeral_nonneg.
Qed.

Lemma group_number_value (g : option string) :
  numeral_or_absent g = true -> group_value g < 2 ^ 53 ->
  group_number g = Num (group_value g).
Proof.
  destruct g as [d|]; [|reflexivity].
  simpl. intros Hd Hlt. unfold group_number.
  rewrite <- (parseInt_numeral_exact d Hd Hlt).
  unfold numeral in Hd. apply andb_true_iff in Hd.
  destruct d; [destruct Hd; discriminate | reflexivity].
Qed.

(** formatDuration through the groups read after the first [PT]. *)
Lemma formatDuration_groups (isoDuration : string) :
  formatDuration isoDuration =
  Normal
    match after_PT isoDuration with
    | None => "0:00"
    | Some t =>
        let '(h, m, s) := iso_groups t in
        if gtb (group_number h) (Num 0) then
          toString (group_number h) ++ ":"
          ++ padStart 2 "0" (toString (group_number m)) ++ ":"
          ++ padStart 2 "0" (toString (group_number s))
        else
          toString (group_number m) ++ ":"
          ++ padStart 2 "0" (toString (group_number s))
    end.
Proof.
  unfold formatDuration.
  pose proof (string_match_iso isoDuration) as Hm.
  destruct (after_PT isoDuration) as [t|].
  - destruct Hm as (m & -> & Hg). cbn [truthy_object negb deref bind].
    destruct (iso_groups t) as [[h mi] s].
    injection Hg as -> -> ->.
    destruct (gtb (group_number h) (Num 0)); reflexivity.
  - rewrite Hm. reflexivity.
Qed.

Lemma formatDuration_total (isoDuration : string) :
  exists text, formatDuration isoDuration = Normal text.
Proof. rewrite formatDuration_groups. eexists. reflexivity. Qed.

Lemma formatDuration_no_match (isoDuration : string) :
  after_PT isoDuration = None -> formatDuration isoDuration = Normal "0:00".
Proof. intros H. rewrite formatDuration_groups, H. reflexivity. Qed.

(** The groups in full decimal digits, when each is below 2^53. *)
Lemma formatDuration_reference (isoDuration t : string)
  (h m s : option string) :
  after_PT isoDuration = Some t ->
  iso_groups t = (h, m, s) ->
  group_value h < 2 ^ 53 -> group_value m < 2 ^ 53 ->
  group_value s < 2 ^ 53 ->
  formatDuration isoDuration =
  Normal (clock (group_value h) (group_value m) (group_value s)).
Proof.
  intros Ht Hg Hh Hm Hs.
  rewrite formatDuration_groups, Ht, Hg.
  pose proof (iso_groups_numeral t) as Hn. rewrite Hg in Hn.
  destruct Hn as (Nh & Nm & Ns).
  rewrite !group_number_value by assumption.
  pose proof (group_value_nonneg h Nh).
  pose proof (group_value_nonneg m Nm).
  pose proof (group_value_nonneg s Ns).
  rewrite !toString_safe by (unfold safe; lia).
  unfold clock, pad2. cbn [gtb].
  destruct (0 <? group_value h); reflexivity.
Qed.

(** *** Canonical ISO-8601 time texts *)

Lemma append_assoc_string (a b c : string) : (a ++ b) ++ c = a ++ (b ++ c).
Proof.
  induction a as [|x a IH]; simpl; [reflexivity | rewrite IH; reflexivity].
Qed.

Lemma take_while_append (p : ascii -> bool) (d rest : string) :
  all_chars p d = true -> stops p rest = true ->
  take_while p (d ++ rest) = d /\ drop_while p (d ++ rest) = rest.
Proof.
  intros Hd Hr. induction d as [|a d IH]; simpl in *.
  - destruct rest as [|b r]; [split; reflexivity|].
    simpl in Hr. apply negb_true_iff in Hr. simpl. rewrite Hr.
    split; reflexivity.
  - apply andb_true_iff in Hd. destruct Hd as [Ha Hd]. rewrite Ha.
    destruct (IH Hd) as [-> ->]. split; reflexivity.
Qed.

Lemma unit_group_hit (u : ascii) (d rest : string) :
  numeral d = true -> is_digit u = false ->
  unit_group u (d ++ String u rest) = Some (d, rest).
Proof.
  unfold numeral. intros Hd Hu. apply andb_true_iff in Hd.
  destruct Hd as [Hall Hne]. unfold unit_group.
  destruct (take_while_append is_digit d (String u rest) Hall) as [-> ->].
  { simpl. rewrite Hu. reflexivity. }
  destruct d; [discriminate|]. rewrite Ascii.eqb_refl. reflexivity.
Qed.

Lemma unit_group_miss (u v : ascii) (d rest : string) :
  all_chars is_digit d = true -> is_digit v = false -> Ascii.eqb v u = false ->
  unit_group u (d ++ String v rest) = None.
Proof.
  intros Hall Hv Hvu. unfold unit_group.
  destruct (take_while_append is_digit d (String v rest) Hall) as [-> ->].
  { simpl. rewrite Hv. reflexivity. }
  destruct d; [reflexivity|]. rewrite Hvu. reflexivity.
Qed.

Lemma numeral_all_digits (d : string) :
  numeral d = true -> all_chars is_digit d = true.
Proof. unfold numeral. intros H. apply andb_true_iff in H. apply H. Qed.

Lemma iso_groups_iso_text (h m s : option N) :
  iso_groups (iso_part "H" h ++ iso_part "M" m ++ iso_part "S" s) =
  (option_map decimal_string h, option_map decimal_string m,
   option_map decimal_string s).
Proof.
  unfold iso_groups, optional_group.
  destruct h as [h|], m as [m|], s as [s|]; cbn [iso_part option_map];
    rewrite ?append_assoc_string; cbn [append];
    repeat
      (first
         [ rewrite unit_group_hit
             by (apply numeral_decimal_string || reflexivity)
         | rewrite unit_group_miss
             by (apply numeral_all_digits, numeral_decimal_string
                 || reflexivity)
         | rewrite ?append_assoc_string; progress cbn [append] ]);
    try reflexivity.
Qed.

Lemma after_PT_iso_text (h m s : option N) :
  after_PT (iso_text h m s)
  = Some (iso_part "H" h ++ iso_part "M" m ++ iso_part "S" s).
Proof. reflexivity. Qed.

Lemma group_value_decimal_string (v : option N) :
  group_value (option_map decimal_string v) = or_zero v.
Proof.
  destruct v as [n|]; [|reflexivity].
  apply decimal_decimal_string.
Qed.

Lemma formatDuration_iso_text (h m s : option N) :
  or_zero h < 2 ^ 53 -> or_zero m < 2 ^ 53 -> or_zero s < 2 ^ 53 ->
  formatDuration (iso_text h m s) =
  Normal (clock (or_zero h) (or_zero m) (or_zero s)).
Proof.
  intros Hh Hm Hs.
  rewrite <- (group_value_decimal_string h), <- (group_value_decimal_string m),
    <- (group_value_decimal_string s) in *.
  apply (formatDuration_reference _ _ _ _ _ (after_PT_iso_text h m s)
           (iso_groups_iso_text h m s)); assumption.
Qed.

(** *** Padding to two digits *)

Lemma pad2_small (n : Z) :
  0 <= n < 10 -> pad2 n = String "0" (decimal_text n).
Proof.
  intros H.
  assert (Hn : In (Z.to_nat n) (seq 0 10)) by (apply in_seq; lia).
  rewrite <- (Z2Nat.id n) by lia.
  simpl in Hn.
  repeat (destruct Hn as [<- | Hn]; [reflexivity|]). contradiction.
Qed.

Lemma decimal_single (a : ascii) :
  is_digit a = true -> decimal (String a "") < 10.
Proof.
  intros Ha. pose proof (decimal_digit_range a Ha).
  unfold decimal. simpl. lia.
Qed.

Lemma length_decimal_string (n : N) :
  (10 <= n)%N -> (2 <= String.length (decimal_string n))%nat.
Proof.
  intros Hn.
  pose proof (numeral_decimal_string n) as Hnum.
  pose proof (decimal_decimal_string n) as Hval.
  destruct (decimal_string n) as [|a [|b d]]; simpl; try lia.
  - discriminate.
  - unfold numeral in Hnum. simpl in Hnum.
    rewrite andb_true_r in Hnum. apply andb_true_iff in Hnum.
    destruct Hnum as [Ha _]. pose proof (decimal_single a Ha). lia.
Qed.

Lemma pad2_large (n : Z) : 10 <= n -> pad2 n = decimal_text n.
Proof.
  intros Hn. unfold pad2, padStart.
  pose proof (length_decimal_string (Z.to_N n)) as Hl.
  unfold decimal_string in Hl. rewrite Z2N.id in Hl by lia.
  replace (2 <=? String.length (decimal_text n))%nat with true
    by (symmetry; apply Nat.leb_le; apply Hl; lia).
  reflexivity.
Qed.

Lemma length_pad2 (n : Z) : (2 <= String.length (pad2 n))%nat.
Proof.
  unfold pad2, padStart.
  destruct (Nat.leb_spec 2 (String.length (decimal_text n))) as [H|H];
    [exact H|].
  rewrite length_append.
  destruct (String.length (decimal_text n)) as [|[|k]]; simpl; lia.
Qed.

(** *** parseDuration *)

Lemma parseDuration_text (text : string) :
  text <> "" ->
  parseDuration (Some text) =
  Normal (Some (seconds_loop (rev (split ":" text)) 0 (Num 0))).
Proof.
  intros Hne. unfold parseDuration.
  destruct text as [|a text]; [congruence|]. reflexivity.
Qed.

Lemma weighted_sum_nonneg (parts : list string) :
  Forall (fun part => numeral part = true) parts ->
  forall index : nat, 0 <= weighted_sum index (map decimal parts).
Proof.
  induction 1 as [|part parts Hp _ IH]; intros index; cbn [map weighted_sum];
    [lia|].
  pose proof (numeral_nonneg part Hp).
  pose proof (IH (S index)).
  assert (0 < 60 ^ Z.of_nat index) by (apply Z.pow_pos_nonneg; lia).
  nia.
Qed.

(** While the sum stays below 2^53 and the powers of 60 are finite, the
    loop adds exactly. *)
Lemma seconds_loop_exact (parts : list string) :
  Forall (fun part => numeral part = true) parts ->
  forall (index : nat) (acc : Z),
    0 <= acc ->
    (index + List.length parts <= 174)%nat ->
    acc + weighted_sum index (map decimal parts) < 2 ^ 53 ->
    seconds_loop parts index (Num acc) =
    Num (acc + weighted_sum index (map decimal parts)).
Proof.
  unfold seconds_loop.
  induction 1 as [|part parts Hp Hparts IH]; intros index acc Hacc Hlen Hsum.
  - cbn [forEach map weighted_sum]. f_equal. lia.
  - cbn [forEach map weighted_sum] in *. cbn [List.length] in Hlen.
    pose proof (numeral_nonneg part Hp) as Hv.
    pose proof (weighted_sum_nonneg parts Hparts (S index)) as Hrest.
    assert (Hpow : 0 < 60 ^ Z.of_nat index) by (apply Z.pow_pos_nonneg; lia).
    assert (Hterm : 0 <= decimal part * 60 ^ Z.of_nat index) by nia.
    assert (Hpart : parseInt part = Num (decimal part)).
    { apply parseInt_numeral_exact; [exact Hp | nia]. }
    assert (Hmul :
      mul (parseInt part) (pow 60 index)
      = Num (decimal part * 60 ^ Z.of_nat index)).
    { rewrite Hpart.
      destruct (Z.eq_dec (decimal part) 0) as [Hz|Hnz].
      - destruct (pow_60_finite index) as (m & _ & ->); [lia|].
        rewrite Hz. reflexivity.
      - unfold pow. rewrite to_double_safe by (unfold safe; nia).
        cbn [mul]. apply to_double_safe. unfold safe. lia. }
    rewrite Hmul. cbn [add].
    rewrite to_double_safe by (unfold safe; lia).
    rewrite IH by lia. f_equal. lia.
Qed.

(** A part parseInt reads no integer from makes the loop end on [NaN]. *)
Lemma seconds_loop_nan (parts : list string) :
  forall (index : nat) (acc : number),
    acc = NaN \/ (exists part, In part parts /\ parseInt part = NaN) ->
    seconds_loop parts index acc = NaN.
Proof.
  unfold seconds_loop.
  induction parts as [|part parts IH]; intros index acc H.
  - destruct H as [->|(part & [] & _)]. reflexivity.
  - cbn [forEach]. apply IH.
    destruct H as [->|(bad & [<-|Hin] & Hbad)].
    + left. reflexivity.
    + left. rewrite Hbad. destruct acc; reflexivity.
    + right. exists bad. split; assumption.
Qed.

Lemma split_plain (s : string) :
  none_chars is_colon s = true -> split ":" s = [s].
Proof.
  induction s as [|a s IH]; [reflexivity|].
  unfold none_chars, is_colon. cbn [all_chars split]. intros H.
  apply andb_true_iff in H. destruct H as [Ha Hs].
  apply negb_true_iff in Ha. rewrite Ha, (IH Hs). reflexivity.
Qed.

Lemma split_append (a rest : string) :
  none_chars is_colon a = true ->
  split ":" (a ++ String ":" rest) = a :: split ":" rest.
Proof.
  induction a as [|c a IH]; [reflexivity|].
  unfold none_chars, is_colon. cbn [all_chars split append]. intros H.
  apply andb_true_iff in H. destruct H as [Hc Ha].
  apply negb_true_iff in Hc. rewrite Hc, (IH Ha). reflexivity.
Qed.

Lemma all_chars_impl (p q : ascii -> bool) (s : string) :
  (forall a, p a = true -> q a = true) ->
  all_chars p s = true -> all_chars q s = true.
Proof.
  intros Hpq. induction s as [|a s IH]; simpl; [reflexivity|].
  intros H. apply andb_true_iff in H. destruct H as [Ha Hs].
  rewrite (Hpq a Ha), (IH Hs). reflexivity.
Qed.

Lemma numeral_no_colon (d : string) :
  numeral d = true -> none_chars is_colon d = true.
Proof.
  intros H. apply numeral_all_digits in H. unfold none_chars.
  revert H. apply all_chars_impl.
  intros a Ha. apply negb_true_iff. apply digit_neq; [exact Ha | reflexivity].
Qed.

Lemma split_join_colon (parts : list string) :
  parts <> [] ->
  Forall (fun part => numeral part = true) parts ->
  split ":" (join_colon parts) = parts.
Proof.
  intros Hne Hall. induction Hall as [|part parts Hp Hall IH]; [congruence|].
  destruct parts as [|part' parts'].
  - simpl. apply split_plain, numeral_no_colon, Hp.
  - change (join_colon (part :: part' :: parts'))
      with (part ++ String ":" (join_colon (part' :: parts'))).
    rewrite split_append by apply numeral_no_colon, Hp.
    rewrite IH by discriminate. reflexivity.
Qed.

Lemma join_colon_nonempty (parts : list string) :
  parts <> [] ->
  Forall (fun part => numeral part = true) parts ->
  join_colon parts <> "".
Proof.
  intros Hne Hall. destruct Hall as [|part parts Hp Hall]; [congruence|].
  unfold numeral in Hp. apply andb_true_iff in Hp. destruct Hp as [_ Hp].
  destruct part as [|a part]; [discriminate|].
  destruct parts; discriminate.
Qed.

Lemma parseDuration_numerals (parts : list string) :
  parts <> [] ->
  Forall (fun part => numeral part = true) parts ->
  (List.length parts <= 174)%nat ->
  weighted_sum 0 (map decimal (rev parts)) < 2 ^ 53 ->
  parseDuration (Some (join_colon parts)) =
  Normal (Some (Num (weighted_sum 0 (map decimal (rev parts))))).
Proof.
  intros Hne Hall Hlen Hsum.
  rewrite parseDuration_text by (apply join_colon_nonempty; assumption).
  rewrite split_join_colon by assumption.
  rewrite seconds_loop_exact;
    [reflexivity | apply Forall_rev; assumption | lia
    | rewrite length_rev; lia | lia].
Qed.

(** *** The length text of the service read back by the helper *)

Lemma pad2_numeral (n : Z) :
  0 <= n -> numeral (pad2 n) = true /\ decimal (pad2 n) = n.
Proof.
  intros Hn.
  pose proof (numeral_decimal_string (Z.to_N n)) as Hnum.
  pose proof (decimal_decimal_string (Z.to_N n)) as Hval.
  unfold decimal_string in Hnum, Hval. rewrite Z2N.id in Hnum, Hval by lia.
  destruct (Z_lt_le_dec n 10) as [Hsmall|Hlarge].
  - rewrite pad2_small by lia. split.
    + unfold numeral in *. apply andb_true_iff in Hnum.
      destruct Hnum as [Hall _]. cbn [all_chars]. rewrite Hall. reflexivity.
    + unfold decimal in *. cbn [decimal_acc].
      change (0 * 10 + decimal_digit "0") with 0. exact Hval.
  - rewrite pad2_large by lia. split; assumption.
Qed.

Lemma parseDuration_clock (h m s : Z) :
  0 <= h -> 0 <= m -> 0 <= s ->
  h * 3600 + m * 60 + s < 2 ^ 53 ->
  parseDuration (Some (clock h m s)) =
  Normal (Some (Num (h * 3600 + m * 60 + s))).
Proof.
  intros Hh Hm Hs Hsum.
  destruct (pad2_numeral m Hm) as [Nm Vm].
  destruct (pad2_numeral s Hs) as [Ns Vs].
  pose proof (numeral_decimal_string (Z.to_N h)) as Nh.
  pose proof (decimal_decimal_string (Z.to_N h)) as Vh.
  pose proof (numeral_decimal_string (Z.to_N m)) as Nm'.
  pose proof (decimal_decimal_string (Z.to_N m)) as Vm'.
  unfold decimal_string in Nh, Vh, Nm', Vm'.
  rewrite Z2N.id in Nh, Vh, Nm', Vm' by lia.
  unfold clock. destruct (Z.ltb_spec 0 h) as [Hpos|Hzero].
  - change (decimal_text h ++ ":" ++ pad2 m ++ ":" ++ pad2 s)
      with (join_colon [decimal_text h; pad2 m; pad2 s]).
    assert (Hval :
      weighted_sum 0 (map decimal (rev [decimal_text h; pad2 m; pad2 s]))
      = h * 3600 + m * 60 + s).
    { cbn [rev app map weighted_sum]. rewrite Vh, Vm, Vs.
      change (Z.of_nat 0) with 0. change (Z.of_nat 1) with 1.
      change (Z.of_nat 2) with 2. lia. }
    rewrite parseDuration_numerals;
      [rewrite Hval; reflexivity | discriminate
      | repeat constructor; assumption | simpl; lia | rewrite Hval; exact Hsum].
  - change (decimal_text m ++ ":" ++ pad2 s)
      with (join_colon [decimal_text m; pad2 s]).
    assert (Hval :
      weighted_sum 0 (map decimal (rev [decimal_text m; pad2 s]))
      = h * 3600 + m * 60 + s).
    { cbn [rev app map weighted_sum]. rewrite Vm', Vs.
      change (Z.of_nat 0) with 0. change (Z.of_nat 1) with 1. lia. }
    rewrite parseDuration_numerals;
      [rewrite Hval; reflexivity | discriminate
      | repeat constructor; assumption | simpl; lia | rewrite Hval; exact Hsum].
Qed.

End DurationFacts.

(* ================================================================== *)
(** ** Facts about view counts *)
(* ================================================================== *)

Module ViewCountFacts.
Import JS Reference YouTubeHelper RegexFacts NumberFacts DurationFacts.

(** *** parseViewCount *)

Lemma parseViewCount_reference (text : string) :
  parseViewCount (Some text) =
  Normal
    match first_run digit_or_comma text with
    | Some run => Some (parseInt (remove_char "," run))
    | None => None
    end.
Proof.
  unfold parseViewCount.
  destruct text as [|a text]; [reflexivity|].
  cbn [truthy_string negb deref bind].
  unfold string_match, digits_and_commas.
  rewrite exec_plus_class.
  destruct (first_run digit_or_comma (String a text)); [|reflexivity].
  cbn [truthy_object deref bind matched]. unfold comma.
  rewrite replace_global_chr.
  reflexivity.
Qed.

Lemma first_run_none (p : ascii -> bool) (s : string) :
  first_run p s = None <-> none_chars p s = true.
Proof.
  unfold none_chars. induction s as [|a s IH]; simpl; [tauto|].
  destruct (p a); simpl; [split; discriminate | exact IH].
Qed.

Lemma first_run_decompose (p : ascii -> bool) (pre run post : string) :
  none_chars p pre = true -> all_chars p run = true -> run <> "" ->
  stops p post = true ->
  first_run p (pre ++ run ++ post) = Some run.
Proof.
  intros Hpre Hrun Hne Hpost. unfold none_chars in Hpre.
  induction pre as [|a pre IH]; simpl in *.
  - destruct run as [|b run]; [congruence|].
    destruct (take_while_append p (String b run) post Hrun Hpost) as [Ht _].
    simpl in Hrun. apply andb_true_iff in Hrun. destruct Hrun as [Hb _].
    cbn [append first_run]. rewrite Hb. f_equal. exact Ht.
  - apply andb_true_iff in Hpre. destruct Hpre as [Ha Hpre].
    apply negb_true_iff in Ha. rewrite Ha. apply IH, Hpre.
Qed.

Lemma stops_drop_while (p : ascii -> bool) (s : string) :
  stops p (drop_while p s) = true.
Proof.
  induction s as [|a s IH]; simpl; [reflexivity|].
  destruct (p a) eqn:Hp; [exact IH | simpl; rewrite Hp; reflexivity].
Qed.

Lemma first_run_some (p : ascii -> bool) (s run : string) :
  first_run p s = Some run ->
  exists pre post,
    s = pre ++ run ++ post /\ none_chars p pre = true
    /\ all_chars p run = true /\ run <> "" /\ stops p post = true.
Proof.
  unfold none_chars. induction s as [|a s IH]; simpl; [discriminate|].
  destruct (p a) eqn:Hp.
  - intros H. injection H as <-.
    exists "", (drop_while p s). simpl. repeat split.
    + rewrite take_drop_while. reflexivity.
    + rewrite Hp, all_chars_take_while. reflexivity.
    + discriminate.
    + apply stops_drop_while.
  - intros H. destruct (IH H) as (pre & post & -> & Hpre & Hrun & Hne & Hpost).
    exists (String a pre), post. simpl. rewrite Hp. auto.
Qed.

Lemma remove_comma_digits (run : string) :
  all_chars digit_or_comma run = true ->
  all_chars is_digit (remove_char "," run) = true.
Proof.
  induction run as [|a run IH]; simpl; [reflexivity|].
  intros H. apply andb_true_iff in H. destruct H as [Ha Hrun].
  destruct (Ascii.eqb_spec a ",") as [->|Hc]; [apply IH, Hrun|].
  unfold digit_or_comma in Ha. apply orb_true_iff in Ha.
  destruct Ha as [Ha|Ha].
  - simpl. rewrite Ha. apply IH, Hrun.
  - apply Ascii.eqb_eq in Ha. congruence.
Qed.

Lemma remove_comma_commas (run : string) :
  all_chars (fun c => Ascii.eqb c ",") run = true ->
  remove_char "," run = "".
Proof.
  induction run as [|a run IH]; simpl; [reflexivity|].
  intros H. apply andb_true_iff in H. destruct H as [Ha Hrun].
  rewrite Ha. apply IH, Hrun.
Qed.

Lemma parseInt_view_run (run : string) :
  all_chars digit_or_comma run = true ->
  parseInt (remove_char "," run) =
  match remove_char "," run with
  | "" => NaN
  | digits => to_double (decimal digits)
  end.
Proof.
  intros H. rewrite parseInt_digits by apply remove_comma_digits, H.
  destruct (remove_char "," run); reflexivity.
Qed.

End ViewCountFacts.

(* ================================================================== *)
(** ** Facts about the interface *)
(* ================================================================== *)

Module NormalizerFacts.
Import JS Reference YouTubeHelper YouTubeService FieldNormalizer.
Import RegexFacts NumberFacts DurationFacts ViewCountFacts.

Lemma after_PT_some (s t : string) :
  after_PT s = Some t -> exists pre, s = pre ++ "PT" ++ t.
Proof.
  revert t. induction s as [|a s IH]; intros t; [discriminate|].
  rewrite after_PT_cons.
  assert (Hrec : after_PT s = Some t ->
                 exists pre, String a s = pre ++ "PT" ++ t).
  { intros H. destruct (IH t H) as [pre ->].
    exists (String a pre). reflexivity. }
  destruct (Ascii.eqb_spec a "P") as [->|_]; [|exact Hrec].
  destruct s as [|b s']; [exact Hrec|].
  destruct (Ascii.eqb_spec b "T") as [->|_]; [|exact Hrec].
  intros H. injection H as ->. exists "". reflexivity.
Qed.

Lemma after_PT_occurrence (pre post : string) :
  after_PT (pre ++ "PT" ++ post) <> None.
Proof.
  induction pre as [|a pre IH].
  - simpl. discriminate.
  - change (String a pre ++ "PT" ++ post)
      with (String a (pre ++ "PT" ++ post)).
    rewrite after_PT_cons.
    destruct (Ascii.eqb a "P"); [|exact IH].
    destruct (pre ++ "PT" ++ post) as [|b t] eqn:E; [exact IH|].
    destruct (Ascii.eqb b "T"); [discriminate | exact IH].
Qed.

Lemma call_total (op : operation) : exists v, call op = Normal v.
Proof.
  destruct op as [t|t|w|iso]; cbn [call].
  - destruct t as [[|a text]|]; eexists; reflexivity.
  - destruct t as [text|]; [|eexists; reflexivity].
    rewrite parseViewCount_reference. eexists; reflexivity.
  - eexists; reflexivity.
  - destruct (formatDuration_total iso) as [text ->].
    eexists; reflexivity.
Qed.

Lemma formatImageQuality_label (w : number) : In (formatImageQuality w) labels.
Proof.
  unfold formatImageQuality, labels.
  destruct (geb w (Num 1280)); [simpl; tauto|].
  destruct (geb w (Num 640)); [simpl; tauto|].
  destruct (geb w (Num 480)); [simpl; tauto|].
  destruct (geb w (Num 320)); simpl; tauto.
Qed.

Lemma strict_equals_refl_iff (v : value) :
  strict_equals v v = true <-> v <> VNumber NaN.
Proof.
  destruct v as [|[|z|sign]|s]; simpl.
  - split; [discriminate | reflexivity].
  - split; [discriminate | congruence].
  - rewrite Z.eqb_refl. split; [discriminate | reflexivity].
  - rewrite Bool.eqb_reflx. split; [discriminate | reflexivity].
  - rewrite String.eqb_refl. split; [discriminate | reflexivity].
Qed.

Lemma same_value_refl (v : value) : same_value v v = true.
Proof.
  destruct v as [|[|z|sign]|s]; simpl; try reflexivity.
  - apply Z.eqb_refl.
  - apply Bool.eqb_reflx.
  - apply String.eqb_refl.
Qed.

End NormalizerFacts.

(* ================================================================== *)
(** ** Facts about the operations over a store *)
(* ================================================================== *)

Module StatefulFacts.
Import JS Reference FieldNormalizer.
Import Stateful.

Lemma nth_error_fresh (h : store) (c : cell) (more : store) :
  nth_error (h ++ c :: more) (List.length h) = Some c.
Proof. rewrite nth_error_app2 by lia. rewrite Nat.sub_diag. reflexivity. Qed.

Lemma nth_error_second (h : store) (c0 c : cell) (more : store) :
  nth_error (h ++ c0 :: c :: more) (S (List.length h)) = Some c.
Proof.
  rewrite nth_error_app2 by lia.
  replace (S (List.length h) - List.length h)%nat with 1%nat by lia.
  reflexivity.
Qed.

Lemma update_app (h l : store) (k : nat) (c : cell) :
  update (List.length h + k)%nat c (h ++ l)%list = (h ++ update k c l)%list.
Proof.
  induction h as [|x h IH]; [reflexivity|].
  cbn [List.length Nat.add app update]. f_equal. exact IH.
Qed.

Lemma update_fresh (h : store) (c c' : cell) (more : store) :
  update (List.length h) c' (h ++ c :: more)%list = (h ++ c' :: more)%list.
Proof. rewrite <- (Nat.add_0_r (List.length h)). apply update_app. Qed.

Lemma update_second (h : store) (c0 c c' : cell) (more : store) :
  update (S (List.length h)) c' (h ++ c0 :: c :: more)%list
  = (h ++ c0 :: c' :: more)%list.
Proof. rewrite <- Nat.add_1_r. apply update_app. Qed.

(** The loop of parseDuration on a store whose last two objects are the
    array of the parts and the binding of [seconds]: the objects before
    them are not touched, the array stays, and the binding ends with the
    number the loop computes from what the binding held.  The result of
    the loop does depend on the binding; parseDuration makes a new one,
    holding 0, in each call. *)
Lemma forEach_from_seconds (h : store) (rest : list string) :
  forall (done : list string) (acc : number),
    forEach_from
      (fun part index =>
         bind (read_binding (S (List.length h))) (fun value =>
         write (S (List.length h))
           (Binding (add value (mul (parseInt part) (pow 60 index))))))
      (List.length h) (List.length rest) (List.length done)
      (h ++ [Array (done ++ rest); Binding acc])%list
    = (Normal tt,
       (h ++ [Array (done ++ rest);
              Binding (seconds_loop rest (List.length done) acc)])%list).
Proof.
  induction rest as [|part rest IH]; intros done acc; [reflexivity|].
  cbn [List.length forEach_from]. unfold seconds_loop. cbn [JS.forEach].
  unfold bind at 1. unfold read_array at 1, bind at 1, read at 1.
  rewrite nth_error_fresh. cbn [ret].
  unfold bind at 1.
  rewrite nth_error_app2 by lia. rewrite Nat.sub_diag. cbn [nth_error].
  unfold bind at 1, read_binding at 1, bind at 1, read at 1.
  rewrite nth_error_second. cbn [ret]. unfold write at 1.
  rewrite update_second.
  specialize (IH (done ++ [part])%list
                (add acc (mul (parseInt part) (pow 60 (List.length done))))).
  rewrite length_app in IH. cbn [List.length] in IH.
  rewrite Nat.add_1_r in IH. rewrite <- app_assoc in IH. cbn [app] in IH.
  exact IH.
Qed.

Lemma parseDuration_store (lengthText : option string) (h : store) :
  exists fresh,
    Stateful.parseDuration lengthText h
    = (YouTubeHelper.parseDuration lengthText, (h ++ fresh)%list).
Proof.
  unfold Stateful.parseDuration, YouTubeHelper.parseDuration.
  destruct lengthText as [[|a text]|];
    try (exists []; rewrite app_nil_r; reflexivity).
  cbn [truthy_string negb deref JS.bind].
  set (elements := JS.split ":" (String a text)).
  exists [Array (rev elements);
          Binding (seconds_loop (rev elements) 0 (Num 0))].
  unfold bind at 1, lift at 1.
  unfold bind at 1, split at 1, alloc at 1. fold elements.
  unfold bind at 1, reverse at 1, bind at 1, read_array at 1, bind at 1,
    read at 1.
  rewrite nth_error_fresh. cbn [ret].
  unfold bind at 1, write at 1. rewrite update_fresh. cbn [ret].
  unfold bind at 1, alloc at 1.
  rewrite length_app. cbn [List.length]. rewrite Nat.add_1_r.
  rewrite <- app_assoc. cbn [app].
  unfold bind at 1, forEach at 1, bind at 1, read_array at 1, bind at 1,
    read at 1.
  rewrite nth_error_fresh. cbn [ret].
  pose proof (forEach_from_seconds h (rev elements) [] (Num 0)) as Hloop.
  cbn [app List.length] in Hloop. rewrite Hloop.
  unfold bind at 1, read_binding at 1, bind at 1, read at 1.
  rewrite nth_error_second. reflexivity.
Qed.

Lemma parseViewCount_store (viewCountText : option string) (h : store) :
  exists fresh,
    Stateful.parseViewCount viewCountText h
    = (YouTubeHelper.parseViewCount viewCountText, (h ++ fresh)%list).
Proof.
  unfold Stateful.parseViewCount, YouTubeHelper.parseViewCount.
  destruct viewCountText as [[|a text]|];
    try (exists []; rewrite app_nil_r; reflexivity).
  cbn [truthy_string negb deref JS.bind].
  unfold bind at 1, lift at 1.
  unfold bind at 1, literal at 1, alloc at 1.
  unfold bind at 1, string_match at 1, bind at 1, read at 1.
  rewrite nth_error_fresh. cbn [ret]. unfold JS.string_match.
  destruct (exec YouTubeHelper.digits_and_commas (String a text)) as [m|].
  - cbn [truthy_object deref JS.bind].
    unfold bind at 1, lift at 1.
    unfold bind at 1, literal at 1, alloc at 1.
    rewrite length_app. cbn [List.length]. rewrite Nat.add_1_r.
    rewrite <- app_assoc. cbn [app].
    unfold bind at 1, replace at 1, bind at 1, read at 1.
    rewrite nth_error_second. cbn [ret].
    unfold bind at 1, write at 1. rewrite update_second.
    eexists. reflexivity.
  - cbn [truthy_object]. eexists. reflexivity.
Qed.

Lemma formatDuration_store (isoDuration : string) (h : store) :
  exists fresh,
    Stateful.formatDuration isoDuration h
    = (YouTubeService.formatDuration isoDuration, (h ++ fresh)%list).
Proof.
  unfold Stateful.formatDuration, YouTubeService.formatDuration.
  unfold bind at 1, literal at 1, alloc at 1.
  unfold bind at 1, string_match at 1, bind at 1, read at 1.
  rewrite nth_error_fresh. cbn [ret]. unfold JS.string_match.
  destruct (exec YouTubeService.iso_duration isoDuration) as [m|].
  - cbn [truthy_object negb deref JS.bind].
    unfold bind at 1, lift at 1.
    destruct (gtb _ _); eexists; reflexivity.
  - cbn [truthy_object negb]. eexists. reflexivity.
Qed.

(** A call on a store completes as the call without a store does, and
    leaves the objects of the store as they were, with new ones after
    them. *)
Lemma call_store (op : operation) (h : store) :
  exists fresh,
    Stateful.call op h = (FieldNormalizer.call op, (h ++ fresh)%list).
Proof.
  destruct op as [t|t|w|iso]; cbn [Stateful.call FieldNormalizer.call].
  - destruct (parseDuration_store t h) as [fresh H].
    exists fresh. unfold bind. rewrite H.
    destruct (YouTubeHelper.parseDuration t); reflexivity.
  - destruct (parseViewCount_store t h) as [fresh H].
    exists fresh. unfold bind. rewrite H.
    destruct (YouTubeHelper.parseViewCount t); reflexivity.
  - exists []. rewrite app_nil_r. reflexivity.
  - destruct (formatDuration_store iso h) as [fresh H].
    exists fresh. unfold bind. rewrite H.
    destruct (YouTubeService.formatDuration iso); reflexivity.
Qed.

End StatefulFacts.

(* ================================================================== *)
(** ** Facts about the link derivation *)
(* ================================================================== *)

Module LinkDerivationFacts.
Import LinkDerivation.

(** Cutting into blocks loses no byte. *)
Lemma concat_blocks (fuel : nat) :
  forall bytes : list N,
    (List.length bytes <= fuel)%nat ->
    List.concat (blocks fuel bytes) = bytes.
Proof.
  induction fuel as [|fuel IH]; intros bytes Hlen.
  - destruct bytes; [reflexivity | simpl in Hlen; lia].
  - destruct bytes as [|b bytes]; [reflexivity|].
    cbn [blocks List.concat]. rewrite IH.
    + apply firstn_skipn.
    + rewrite length_skipn. unfold block_size. simpl in *. lia.
Qed.

(** Without a tier there is no link, whatever the token decrypts to. *)
Lemma deriveLinks_no_tier
  (decrypt_block : list N -> list N) (placeholder token : string) :
  deriveLinks decrypt_block placeholder token [] = Ok []
  \/ exists e, deriveLinks decrypt_block placeholder token [] = Err e.
Proof.
  unfold deriveLinks.
  destruct (base64_decode token) as [bytes|]; [|right; eexists; reflexivity].
  destruct (List.length bytes mod block_size =? 0)%nat;
    [|right; eexists; reflexivity].
  cbv zeta.
  destruct (unpad _); [left | right; eexists]; reflexivity.
Qed.

End LinkDerivationFacts.

(* ================================================================== *)
(** ** The properties of the module *)
(* ================================================================== *)

Import JS Models Reference YouTubeHelper YouTubeService FieldNormalizer.
Import LinkDerivation.
Import RegexFacts NumberFacts DurationFacts ViewCountFacts NormalizerFacts.

(** C1 (counterexample).  Two inputs that cannot be parsed and whose result
    is not [null]: the ISO duration "garbage" gives the text "0:00", and
    the duration text "abc" gives the number [NaN]. *)
Lemma unparseable_result_not_null :
  unparseable (FormatDuration "garbage") = true
  /\ call (FormatDuration "garbage") = Normal (VString "0:00")
  /\ call (FormatDuration "garbage") <> Normal VNull
  /\ unparseable (ParseDuration (Some "abc")) = true
  /\ call (ParseDuration (Some "abc")) = Normal (VNumber NaN)
  /\ call (ParseDuration (Some "abc")) <> Normal VNull.
Proof. repeat split; try reflexivity; discriminate. Qed.

(** C1 (amended).  Every operation of the field normaliser returns a value
    and never throws, whatever the input.  parseDuration and parseViewCount
    return [null] when the input is [undefined] or empty, parseViewCount
    also when the text has no digit and no comma; formatDuration returns
    the text "0:00" when its pattern finds no match; formatImageQuality
    returns one of the five labels. *)
Theorem normalizer_total_with_fallbacks (op : operation) :
  exists v : value,
    call op = Normal v
    /\ match op with
       | ParseDuration lengthText => missing lengthText = true -> v = VNull
       | ParseViewCount viewCountText =>
           (missing viewCountText = true -> v = VNull)
           /\ (forall text, viewCountText = Some text ->
                 none_chars digit_or_comma text = true -> v = VNull)
       | FormatImageQuality width =>
           exists label, In label labels /\ v = VString label
       | FormatDuration isoDuration =>
           after_PT isoDuration = None -> v = VString "0:00"
       end.
Proof.
  destruct op as [t|t|w|iso]; cbn [call].
  - destruct t as [[|a text]|];
      (eexists; split; [reflexivity | first [reflexivity | discriminate]]).
  - destruct t as [text|].
    + rewrite parseViewCount_reference. eexists. split; [reflexivity|].
      split.
      * destruct text; [reflexivity | discriminate].
      * intros text' H Hnone. injection H as <-.
        apply first_run_none in Hnone. rewrite Hnone. reflexivity.
    + eexists. split; [reflexivity|]. split; [reflexivity | discriminate].
  - eexists. split; [reflexivity|]. eexists. split; [|reflexivity].
    apply formatImageQuality_label.
  - destruct (formatDuration_total iso) as [text Htext].
    rewrite Htext. eexists. split; [reflexivity|].
    intros Hnone. rewrite (formatDuration_no_match iso Hnone) in Htext.
    congruence.
Qed.

Lemma normalizer_total_with_fallbacks_witness :
  exists v : value,
    call (ParseViewCount (Some "views")) = Normal v
    /\ v = VNull.
Proof.
  destruct (normalizer_total_with_fallbacks (ParseViewCount (Some "views")))
    as (v & Hcall & _ & Hnone).
  exists v. split; [exact Hcall|].
  apply (Hnone "views"); reflexivity.
Defined.

(** C2 (counterexample).  Two duration texts made of numerals whose result
    is not the sum of part[i] * 60^i.  For 175 parts "0" the sum is 0 and
    the result is [NaN]: Math.pow(60, 174) is infinite, and 0 times
    infinity is [NaN].  For the one part "9007199254740993", which is
    2^53 + 1, the result is 2^53: parseInt rounds to the nearest double. *)
Lemma parseDuration_sum_out_of_range :
  forallb numeral zero_parts = true
  /\ weighted_sum 0 (map decimal (rev zero_parts)) = 0
  /\ parseDuration (Some (join_colon zero_parts)) = Normal (Some NaN)
  /\ numeral "9007199254740993" = true
  /\ weighted_sum 0 (map decimal (rev ["9007199254740993"]))
     = 9007199254740993
  /\ parseDuration (Some (join_colon ["9007199254740993"]))
     = Normal (Some (Num 9007199254740992)).
Proof. repeat split; vm_compute; reflexivity. Qed.

(** C2 (amended).  A duration text made of at most 174 numerals separated
    by ':' splits into these numerals, and when the sum of
    value(part[i]) * 60^i over the reversed parts (the last part counting
    seconds, the one before minutes, then hours) is below 2^53,
    parseDuration returns that sum.  "3:45" gives 225 and "1:02:03" gives
    3723; the empty text and [undefined] give [null]. *)
Theorem parseDuration_weighted_sum :
  (forall parts : list string,
      parts <> [] ->
      Forall (fun part => numeral part = true) parts ->
      (List.length parts <= 174)%nat ->
      weighted_sum 0 (map decimal (rev parts)) < 2 ^ 53 ->
      split ":" (join_colon parts) = parts
      /\ parseDuration (Some (join_colon parts)) =
         Normal (Some (Num (weighted_sum 0 (map decimal (rev parts))))))
  /\ parseDuration (Some "3:45") = Normal (Some (Num 225))
  /\ parseDuration (Some "1:02:03") = Normal (Some (Num 3723))
  /\ parseDuration (Some "") = Normal None
  /\ parseDuration None = Normal None.
Proof.
  split.
  { intros parts Hne Hall Hlen Hsum. split.
    - apply split_join_colon; assumption.
    - apply parseDuration_numerals; assumption. }
  repeat split; reflexivity.
Qed.

Lemma parseDuration_weighted_sum_witness :
  split ":" (join_colon ["1"; "02"; "03"]) = ["1"; "02"; "03"]
  /\ parseDuration (Some (join_colon ["1"; "02"; "03"])) =
     Normal (Some (Num (3 * 60 ^ 0 + (2 * 60 ^ 1 + (1 * 60 ^ 2 + 0))))).
Proof.
  apply (proj1 parseDuration_weighted_sum ["1"; "02"; "03"]).
  - discriminate.
  - repeat constructor.
  - simpl. lia.
  - vm_compute. reflexivity.
Defined.

(** C3 (counterexample).  Two ISO durations whose seconds group is not
    what the result shows.  For PT9007199254740993S the group is 2^53 + 1
    and the result shows 2^53, the double parseInt rounds to; for
    PT1000000000000000000000S the seconds are printed with an exponent,
    which is no SS field. *)
Lemma formatDuration_clock_out_of_range :
  after_PT "PT9007199254740993S" = Some "9007199254740993S"
  /\ iso_groups "9007199254740993S" = (None, None, Some "9007199254740993")
  /\ clock 0 0 (decimal "9007199254740993") = "0:9007199254740993"
  /\ formatDuration "PT9007199254740993S" = Normal "0:9007199254740992"
  /\ formatDuration "PT1000000000000000000000S" = Normal "0:1e+21".
Proof. repeat split; vm_compute; reflexivity. Qed.

(** C3 (amended).  formatDuration looks for the pattern PT(nH)?(nM)?(nS)?
    in its input, each numeric group optional and counting 0 when absent.
    When the pattern finds no match, which is when PT does not occur, the
    result is "0:00".  When the groups read after the first PT are each
    below 2^53, the result is H:MM:SS with hours above 0 and M:SS
    otherwise, every number in full decimal digits and MM and SS padded
    with a zero to two digits.  "PT1H2M3S" gives "1:02:03", "PT5M9S" gives
    "5:09" and "garbage" gives "0:00". *)
Theorem formatDuration_clock :
  (forall isoDuration : string,
      after_PT isoDuration = None ->
      formatDuration isoDuration = Normal "0:00")
  /\ (forall (isoDuration t : string) (h m s : option string),
         after_PT isoDuration = Some t ->
         iso_groups t = (h, m, s) ->
         group_value h < 2 ^ 53 -> group_value m < 2 ^ 53 ->
         group_value s < 2 ^ 53 ->
         formatDuration isoDuration =
         Normal (clock (group_value h) (group_value m) (group_value s)))
  /\ (forall h m s : option N,
         or_zero h < 2 ^ 53 -> or_zero m < 2 ^ 53 -> or_zero s < 2 ^ 53 ->
         formatDuration (iso_text h m s) =
         Normal (clock (or_zero h) (or_zero m) (or_zero s)))
  /\ (forall n : Z,
         (2 <= String.length (pad2 n))%nat
         /\ (0 <= n < 10 -> pad2 n = String "0" (decimal_text n))
         /\ (10 <= n -> pad2 n = decimal_text n))
  /\ (forall isoDuration : string,
         after_PT isoDuration = None <->
         (forall pre post, isoDuration <> pre ++ "PT" ++ post))
  /\ formatDuration "PT1H2M3S" = Normal "1:02:03"
  /\ formatDuration "PT5M9S" = Normal "5:09"
  /\ formatDuration "garbage" = Normal "0:00".
Proof.
  split; [exact formatDuration_no_match|].
  split; [exact formatDuration_reference|].
  split; [exact formatDuration_iso_text|].
  split;
    [intros n; split; [apply length_pad2|];
     split; [apply pad2_small | apply pad2_large]|].
  split; [|repeat split; reflexivity].
  intros iso. split.
  - intros Hnone pre post ->. exact (after_PT_occurrence pre post Hnone).
  - intros Hno. destruct (after_PT iso) as [t|] eqn:E; [|reflexivity].
    destruct (after_PT_some iso t E) as [pre ->].
    exfalso. exact (Hno pre t eq_refl).
Qed.

Lemma formatDuration_clock_witness :
  pad2 7 = String "0" (decimal_text 7)
  /\ formatDuration (iso_text (Some 26%N) None (Some 7%N)) =
     Normal "26:00:07".
Proof.
  split.
  - apply (proj1 (proj2 (proj1 (proj2 (proj2 (proj2 formatDuration_clock)))
                          7))).
    lia.
  - apply (proj1 (proj2 (proj2 formatDuration_clock))
             (Some 26%N) None (Some 7%N));
      vm_compute; reflexivity.
Defined.

(** C4 (counterexample).  A view count whose digits are not the result:
    the text "9,007,199,254,740,993 views" has the run of 2^53 + 1, and the
    result is 2^53, the double parseInt rounds to; a run of 310 digits
    gives Infinity. *)
Lemma parseViewCount_out_of_range :
  first_run digit_or_comma "9,007,199,254,740,993 views"
  = Some "9,007,199,254,740,993"
  /\ decimal (remove_char "," "9,007,199,254,740,993") = 9007199254740993
  /\ parseViewCount (Some "9,007,199,254,740,993 views")
     = Normal (Some (Num 9007199254740992))
  /\ all_chars is_digit long_run = true
  /\ parseViewCount (Some long_run) = Normal (Some (Infinity false)).
Proof. repeat split; vm_compute; reflexivity. Qed.

(** C4 (amended).  parseViewCount finds the first maximal run of digits
    and commas in the text, removes the commas and parses the rest with
    parseInt; when the run has a digit and the decimal value of its digits
    is below 2^53, the result is that value.  It returns [null] when the
    text has no such run and when the input is [undefined].
    "1,234,567 views" gives 1234567 and the empty text gives [null]. *)
Theorem parseViewCount_first_run :
  parseViewCount None = Normal None
  /\ (forall text : string,
         none_chars digit_or_comma text = true ->
         parseViewCount (Some text) = Normal None)
  /\ (forall pre run post : string,
         none_chars digit_or_comma pre = true ->
         all_chars digit_or_comma run = true ->
         run <> "" ->
         stops digit_or_comma post = true ->
         parseViewCount (Some (pre ++ run ++ post)) =
         Normal (Some (parseInt (remove_char "," run)))
         /\ (remove_char "," run <> "" ->
             decimal (remove_char "," run) < 2 ^ 53 ->
             parseInt (remove_char "," run) =
             Num (decimal (remove_char "," run))))
  /\ (forall text : string,
         none_chars digit_or_comma text = true
         \/ exists pre run post,
              text = pre ++ run ++ post
              /\ none_chars digit_or_comma pre = true
              /\ all_chars digit_or_comma run = true
              /\ run <> ""
              /\ stops digit_or_comma post = true)
  /\ parseViewCount (Some "1,234,567 views") = Normal (Some (Num 1234567))
  /\ parseViewCount (Some "") = Normal None.
Proof.
  split; [reflexivity|].
  split.
  { intros text Hnone. rewrite parseViewCount_reference.
    apply first_run_none in Hnone. rewrite Hnone. reflexivity. }
  split.
  { intros pre run post Hpre Hrun Hne Hpost. split.
    - rewrite parseViewCount_reference.
      rewrite (first_run_decompose _ pre run post) by assumption.
      reflexivity.
    - intros Hdigits Hsafe. rewrite (parseInt_view_run run Hrun).
      pose proof (decimal_nonneg _ (remove_comma_digits run Hrun)) as Hpos.
      destruct (remove_char "," run); [congruence|].
      apply to_double_safe. unfold safe. lia. }
  split; [|split; reflexivity].
  intros text. destruct (first_run digit_or_comma text) as [run|] eqn:E.
  - right. destruct (first_run_some _ _ _ E) as (pre & post & H).
    exists pre, run, post. exact H.
  - left. apply first_run_none, E.
Qed.

Lemma parseViewCount_first_run_witness :
  parseViewCount (Some ("about " ++ "12,500" ++ " views")) =
  Normal (Some (parseInt (remove_char "," "12,500")))
  /\ parseInt (remove_char "," "12,500") = Num 12500.
Proof.
  destruct (proj1 (proj2 (proj2 parseViewCount_first_run))
              "about " "12,500" " views")
    as [Hcall Hvalue]; try reflexivity; try discriminate.
  split; [exact Hcall|]. apply Hvalue; [discriminate|].
  vm_compute. reflexivity.
Defined.

(** C5.  formatImageQuality tries its thresholds from the highest down: a
    width of 1280 or more is "1280x720", else 640 or more "640x480", else
    480 or more "480x360", else 320 or more "320x180", and any other width
    is "120x90"; every width gets one of these labels.  1920 gives
    "1280x720", 100 gives "120x90" and the boundary 640 gives "640x480". *)
Theorem formatImageQuality_thresholds (width : Z) :
  formatImageQuality (Num width) =
    (if 1280 <=? width then "1280x720"
     else if 640 <=? width then "640x480"
     else if 480 <=? width then "480x360"
     else if 320 <=? width then "320x180"
     else "120x90")
  /\ (1280 <= width <-> formatImageQuality (Num width) = "1280x720")
  /\ (640 <= width < 1280 <-> formatImageQuality (Num width) = "640x480")
  /\ (480 <= width < 640 <-> formatImageQuality (Num width) = "480x360")
  /\ (320 <= width < 480 <-> formatImageQuality (Num width) = "320x180")
  /\ (width < 320 <-> formatImageQuality (Num width) = "120x90")
  /\ In (formatImageQuality (Num width)) labels
  /\ formatImageQuality (Num 1920) = "1280x720"
  /\ formatImageQuality (Num 100) = "120x90"
  /\ formatImageQuality (Num 640) = "640x480".
Proof.
  split; [reflexivity|].
  unfold formatImageQuality, geb.
  destruct (Z.leb_spec 1280 width), (Z.leb_spec 640 width),
    (Z.leb_spec 480 width), (Z.leb_spec 320 width);
    repeat split; intros; try lia; try discriminate; try reflexivity;
    simpl; tauto.
Qed.

(** C6.  deriveLinks fails with DecodeError on every token that is not
    valid base64, and on every token whose decoded bytes are not a whole
    number of 8-byte cipher blocks. *)
Theorem deriveLinks_decode_error
  (decrypt_block : list N -> list N) (placeholder token : string)
  (tiers : list N)
  (Hbad : base64_decode token = None
          \/ exists bytes,
               base64_decode token = Some bytes
               /\ (List.length bytes mod 8 <> 0)%nat) :
  deriveLinks decrypt_block placeholder token tiers = Err DecodeError.
Proof.
  unfold deriveLinks. destruct Hbad as [-> | (bytes & -> & Hmod)].
  - reflexivity.
  - unfold block_size.
    destruct (Nat.eqb_spec (List.length bytes mod 8) 0); [contradiction|].
    reflexivity.
Qed.

Lemma deriveLinks_decode_error_witness :
  deriveLinks (fun block => block) "_96" "not base64!" [320%N] =
    Err DecodeError
  /\ deriveLinks (fun block => block) "_96" "aGVsbG8=" [320%N] =
       Err DecodeError.
Proof.
  split.
  - apply deriveLinks_decode_error. left. reflexivity.
  - apply deriveLinks_decode_error. right.
    exists [104; 101; 108; 108; 111]%N. split; [reflexivity | discriminate].
Defined.

(** C7.  Every normalisation function is deterministic.  The functions do
    change objects: parseDuration reverses the array it split and adds to
    its binding [seconds], and the regular expression objects carry a
    [lastIndex].  On every store of objects a call completes with a value,
    leaves the objects of the store as they were and only adds new ones
    after them, and the value is the same on every store, the one the
    operation without a store returns: so a second call on the same input,
    right after the first or after any other call, returns a value that is
    the same in the sense of Object.is, and equal under [===] unless it is
    the number [NaN]. *)
Theorem normalizer_deterministic
  (op : operation) (first_store second_store : Stateful.store) :
  exists (v : value) (first_new second_new after_new : Stateful.store),
    Stateful.call op first_store
    = (Normal v, (first_store ++ first_new)%list)
    /\ Stateful.call op second_store
       = (Normal v, (second_store ++ second_new)%list)
    /\ Stateful.call op (first_store ++ first_new)%list
       = (Normal v, ((first_store ++ first_new) ++ after_new)%list)
    /\ call op = Normal v
    /\ same_value v v = true
    /\ (strict_equals v v = true <-> v <> VNumber NaN).
Proof.
  destruct (call_total op) as [v Hv].
  destruct (StatefulFacts.call_store op first_store) as [first_new H1].
  destruct (StatefulFacts.call_store op second_store) as [second_new H2].
  destruct (StatefulFacts.call_store op (first_store ++ first_new)%list)
    as [after_new H3].
  exists v, first_new, second_new, after_new.
  rewrite H1, H2, H3, Hv. repeat split.
  - apply same_value_refl.
  - apply strict_equals_refl_iff.
  - apply strict_equals_refl_iff.
Qed.

(** C8.  Whatever the upstream record, the stream lookup and the
    includeStreamUrl flag, transformYouTubeVideo fulfils with a record
    whose type is 'youtube' and whose url is
    "https://www.youtube.com/watch?v=" followed by the id of the record;
    with the flag off, streamUrl is [null]. *)
Theorem transformYouTubeVideo_fixed_fields
  (getYouTubeStreamUrl : string -> completion string)
  (video : YouTubeVideoAPIResponse) (includeStreamUrl : bool) :
  (exists r : YouTubeVideo,
      fst (transformYouTubeVideo getYouTubeStreamUrl video includeStreamUrl)
      = Normal r
      /\ type r = "youtube"
      /\ url r = "https://www.youtube.com/watch?v=" ++ api_id video)
  /\ (exists r : YouTubeVideo,
         fst (transformYouTubeVideo getYouTubeStreamUrl video false)
         = Normal r
         /\ streamUrl r = None).
Proof.
  destruct (call_total (ParseDuration (api_lengthText video))) as [d Hd].
  destruct (call_total (ParseViewCount (api_viewCount video))) as [c Hc].
  cbn [call] in Hd, Hc.
  destruct (parseDuration (api_lengthText video)) as [dur|] eqn:Ed;
    [|discriminate].
  destruct (parseViewCount (api_viewCount video)) as [cnt|] eqn:Ec;
    [|discriminate].
  unfold transformYouTubeVideo. rewrite Ed, Ec. split.
  - destruct includeStreamUrl;
      [destruct (getYouTubeStreamUrl (api_id video))|];
      eexists; repeat split; reflexivity.
  - eexists; repeat split; reflexivity.
Qed.

(** C9.  The image array of the record transformYouTubeVideo returns has
    one entry per upstream thumbnail, in the same order: the entry at each
    position has the url of the thumbnail there and, as quality,
    formatImageQuality of its width. *)
Theorem transformYouTubeVideo_images
  (getYouTubeStreamUrl : string -> completion string)
  (video : YouTubeVideoAPIResponse) (includeStreamUrl : bool) :
  exists r : YouTubeVideo,
    fst (transformYouTubeVideo getYouTubeStreamUrl video includeStreamUrl)
    = Normal r
    /\ List.length (image r) = List.length (api_thumbnails video)
    /\ forall i : nat,
         nth_error (image r) i =
         match nth_error (api_thumbnails video) i with
         | Some thumb =>
             Some {| quality := formatImageQuality (thumb_width thumb);
                     image_url := thumb_url thumb |}
         | None => None
         end.
Proof.
  destruct (call_total (ParseDuration (api_lengthText video))) as [d Hd].
  destruct (call_total (ParseViewCount (api_viewCount video))) as [c Hc].
  cbn [call] in Hd, Hc.
  destruct (parseDuration (api_lengthText video)) as [dur|] eqn:Ed;
    [|discriminate].
  destruct (parseViewCount (api_viewCount video)) as [cnt|] eqn:Ec;
    [|discriminate].
  unfold transformYouTubeVideo. rewrite Ed, Ec.
  assert (Hnth : forall (l : list Thumbnail) (i : nat),
    nth_error
      (map (fun thumb =>
              {| quality := formatImageQuality (thumb_width thumb);
                 image_url := thumb_url thumb |}) l) i =
    match nth_error l i with
    | Some thumb =>
        Some {| quality := formatImageQuality (thumb_width thumb);
                image_url := thumb_url thumb |}
    | None => None
    end).
  { induction l as [|t l IH]; intros [|i]; simpl; auto. }
  destruct includeStreamUrl;
    [destruct (getYouTubeStreamUrl (api_id video))|];
    (eexists; split; [reflexivity|]; cbn [image]; split;
     [apply length_map | apply Hnth]).
Qed.

(** C10.  parseViewCount returns [null] exactly when its input is
    [undefined], is empty, or has neither a digit nor a comma.  So a text
    whose first run of digits and commas is made of commas only, such as
    ",", gives the number [NaN] and not [null]. *)
Theorem parseViewCount_null_iff (viewCountText : option string) :
  (parseViewCount viewCountText = Normal None <->
   viewCountText = None
   \/ viewCountText = Some ""
   \/ exists text,
        viewCountText = Some text
        /\ none_chars digit_or_comma text = true)
  /\ parseViewCount (Some ",") = Normal (Some NaN)
  /\ (forall pre run post : string,
         none_chars digit_or_comma pre = true ->
         all_chars is_comma run = true ->
         run <> "" ->
         stops digit_or_comma post = true ->
         parseViewCount (Some (pre ++ run ++ post)) = Normal (Some NaN)).
Proof.
  split; [|split; [reflexivity|]].
  - split.
    + destruct viewCountText as [text|]; [|auto].
      rewrite parseViewCount_reference. intros H. right. right.
      exists text. split; [reflexivity|].
      apply first_run_none.
      destruct (first_run digit_or_comma text); [discriminate | reflexivity].
    + intros [-> | [-> | (text & -> & Hnone)]]; try reflexivity.
      rewrite parseViewCount_reference.
      apply first_run_none in Hnone. rewrite Hnone. reflexivity.
  - intros pre run post Hpre Hrun Hne Hpost.
    rewrite parseViewCount_reference.
    rewrite (first_run_decompose _ pre run post); try assumption.
    + rewrite (remove_comma_commas run Hrun). reflexivity.
    + revert Hrun. apply all_chars_impl. intros a Ha.
      unfold digit_or_comma. unfold is_comma in Ha. rewrite Ha.
      apply orb_true_r.
Qed.

Lemma parseViewCount_null_iff_witness :
  parseViewCount (Some ("x" ++ ",," ++ " y")) = Normal (Some NaN)
  /\ parseViewCount (Some "views") = Normal None.
Proof.
  split.
  - apply (proj2 (proj2 (parseViewCount_null_iff None)) "x" ",," " y");
      try reflexivity; discriminate.
  - apply (proj1 (parseViewCount_null_iff (Some "views"))).
    right. right. exists "views". split; reflexivity.
Defined.

(** X1.  getVideosByIds passes formatDuration(duration) as lengthText, and
    transformYouTubeVideo reads it back with parseDuration: for an ISO time
    text PT[nH][nM][nS] whose number of seconds,
    3600 * hours + 60 * minutes + seconds, is below 2^53, the duration of
    the record is that number. *)
Theorem parseDuration_formatDuration (h m s : option N)
  (Hseconds : or_zero h * 3600 + or_zero m * 60 + or_zero s < 2 ^ 53) :
  (lengthText <- formatDuration (iso_text h m s) ;;
   parseDuration (Some lengthText)) =
  Normal (Some (Num (or_zero h * 3600 + or_zero m * 60 + or_zero s))).
Proof.
  assert (0 <= or_zero h /\ 0 <= or_zero m /\ 0 <= or_zero s)
    by (destruct h, m, s; simpl; lia).
  rewrite formatDuration_iso_text by lia. cbn [bind].
  apply parseDuration_clock; lia.
Qed.

Lemma parseDuration_formatDuration_witness :
  (lengthText <- formatDuration (iso_text (Some 1%N) None (Some 5%N)) ;;
   parseDuration (Some lengthText)) = Normal (Some (Num 3605)).
Proof.
  apply (parseDuration_formatDuration (Some 1%N) None (Some 5%N)).
  vm_compute. reflexivity.
Defined.

(* ================================================================== *)
(** ** Facts about the stream lookup *)
(* ================================================================== *)

Module SpawnFacts.
Import JS JSArray Spawn.



(** [bitrate || 0] is a double that is not [NaN]. *)
Lemma or_zero_number_double (v : option number) :
  (exists z, or_zero_number v = Num z /\ Z.abs z < 2 ^ 1024)
  \/ exists s, or_zero_number v = Infinity s.
Proof.
  assert (H0 : Z.abs 0 < 2 ^ 1024) by (apply Z.pow_pos_nonneg; lia).
  destruct v as [[|z|s]|]; cbn [or_zero_number].
  - left. exists 0. split; [reflexivity | exact H0].
  - destruct (to_double z) as [|m|s] eqn:E.
    + exfalso. destruct (Z_lt_le_dec (Z.abs z) (2 ^ 53)) as [Hs|Hl].
      * rewrite NumberFacts.to_double_safe in E by exact Hs. discriminate.
      * destruct (NumberFacts.to_double_large z Hl) as (m & _ & Hm).
        rewrite Hm in E. destruct (2 ^ 1024 <=? m); discriminate.
    + left. exists m. split; [reflexivity|].
      apply (NumberFacts.to_double_finite z m E).
    + right. exists s. reflexivity.
  - right. exists s. reflexivity.
  - left. exists 0. split; [reflexivity | exact H0].
Qed.

(** The comparator is above 0 exactly when the bitrates go up. *)
Lemma by_bitrate_key (a b : Format) :
  gtb (by_bitrate a b) (Num 0) = (bitrate_key a <? bitrate_key b).
Proof.
  unfold by_bitrate, bitrate_key, sub.
  destruct (or_zero_number_double (bitrate a)) as [(x & -> & Hx)|[s ->]],
    (or_zero_number_double (bitrate b)) as [(y & -> & Hy)|[t ->]];
    cbn [negate add].
  - rewrite NumberFacts.gtb_to_double.
    destruct (Z.ltb_spec 0 (y + - x)), (Z.ltb_spec x y);
      try reflexivity; lia.
  - destruct t; cbn [gtb]; symmetry;
      [apply Z.ltb_ge | apply Z.ltb_lt]; lia.
  - destruct s; cbn [negb gtb]; symmetry;
      [apply Z.ltb_lt | apply Z.ltb_ge]; lia.
  - assert (0 < 2 ^ 1024) by (apply Z.pow_pos_nonneg; lia).
    destruct s, t; cbn [negb Bool.eqb gtb]; symmetry;
      first [apply Z.ltb_irrefl | apply Z.ltb_lt; lia | apply Z.ltb_ge; lia].
Qed.

Lemma hd_sort_cons (x : Format) (l : list Format) :
  hd_error (sort by_bitrate (x :: l)) =
  match hd_error (sort by_bitrate l) with
  | Some y => if bitrate_key x <? bitrate_key y then Some y else Some x
  | None => Some x
  end.
Proof.
  unfold sort. cbn [fold_right].
  destruct (fold_right (sort_insert by_bitrate) [] l) as [|y ys];
    [reflexivity|].
  cbn [sort_insert hd_error]. rewrite by_bitrate_key.
  destruct (bitrate_key x <? bitrate_key y); reflexivity.
Qed.

Lemma hd_sort_none (l : list Format) :
  hd_error (sort by_bitrate l) = None <-> l = [].
Proof.
  destruct l as [|x l]; [split; reflexivity|].
  rewrite hd_sort_cons.
  destruct (hd_error (sort by_bitrate l)) as [y|];
    [destruct (bitrate_key x <? bitrate_key y)|]; split; discriminate.
Qed.

(** The first element of the sorted array is one of the highest bitrate. *)
Lemma hd_sort_max (l : list Format) (f : Format) :
  hd_error (sort by_bitrate l) = Some f ->
  In f l /\ forall g, In g l -> bitrate_key g <= bitrate_key f.
Proof.
  revert f. induction l as [|x l IH]; intros f; [discriminate|].
  rewrite hd_sort_cons.
  destruct (hd_error (sort by_bitrate l)) as [y|] eqn:E.
  - destruct (IH y eq_refl) as [Hin Hmax].
    destruct (Z.ltb_spec (bitrate_key x) (bitrate_key y)) as [Hlt|Hge]; intros H;
      injection H as <-.
    + split; [right; exact Hin|].
      intros g [<-|Hg]; [lia | apply Hmax, Hg].
    + split; [left; reflexivity|].
      intros g [<-|Hg]; [lia | specialize (Hmax g Hg); lia].
  - apply hd_sort_none in E. subst l. intros H. injection H as <-.
    split; [left; reflexivity|]. intros g [<-|[]]. lia.
Qed.

(** An element strictly above the others comes first. *)
Lemma hd_sort_strict (l : list Format) (f : Format) :
  In f l -> (forall g, In g l -> g = f \/ bitrate_key g < bitrate_key f) ->
  hd_error (sort by_bitrate l) = Some f.
Proof.
  intros Hin Hstrict.
  destruct (hd_error (sort by_bitrate l)) as [y|] eqn:E.
  - destruct (hd_sort_max l y E) as [Hy Hmax].
    destruct (Hstrict y Hy) as [->|Hlt]; [reflexivity|].
    specialize (Hmax f Hin). lia.
  - apply hd_sort_none in E. subst l. destruct Hin.
Qed.

Lemma truthy_string_some (v : option string) :
  truthy_string v = true ->
  exists u, v = Some u /\ u <> "" /\ ToString v = u.
Proof.
  destruct v as [[|a u]|]; try discriminate.
  intros _. exists (String a u). repeat split. discriminate.
Qed.

Lemma filter_nothing {A : Type} (p : A -> bool) (l : list A) :
  (forall x, In x l -> p x = false) -> filter p l = [].
Proof.
  induction l as [|x l IH]; intros H; [reflexivity|]. simpl.
  rewrite (H x) by (left; reflexivity).
  apply IH. intros y Hy. apply H. right. exact Hy.
Qed.

Lemma get_put_same (k v : string) (o : object) :
  get k (put k v o) = Some v.
Proof.
  induction o as [|[k' v'] o IH]; simpl.
  - rewrite String.eqb_refl. reflexivity.
  - destruct (String.eqb_spec k' k) as [->|Hne]; simpl.
    + rewrite String.eqb_refl. reflexivity.
    + destruct (String.eqb_spec k' k); [contradiction | exact IH].
Qed.

Lemma get_put_other (k k' v : string) (o : object) :
  k' <> k -> get k' (put k v o) = get k' o.
Proof.
  intros Hne. induction o as [|[k0 v0] o IH]; simpl.
  - destruct (String.eqb_spec k k'); [congruence | reflexivity].
  - destruct (String.eqb_spec k0 k) as [->|Hk]; simpl.
    + destruct (String.eqb_spec k k'); [congruence | reflexivity].
    + destruct (String.eqb_spec k0 k'); [reflexivity | exact IH].
Qed.

Lemma filter_audio_only (formats : list Format) (f : Format) :
  In f (filter (fun f => hasAudio f && negb (hasVideo f)) formats) <->
  In f formats /\ hasAudio f = true /\ hasVideo f = false.
Proof.
  rewrite filter_In, andb_true_iff, negb_true_iff. tauto.
Qed.

End SpawnFacts.

(* ================================================================== *)
(** ** Facts about the service *)
(* ================================================================== *)

Module ServiceFacts.
Import JS JSArray Models Reference YouTubeHelper YouTubeService Spawn.
Import YouTubeServiceMethods ServiceReference.
Import NumberFacts DurationFacts NormalizerFacts FieldNormalizer.

(** The seconds an ISO duration counts for the service. *)
Lemma iso_seconds_nonneg (iso : string) : 0 <= iso_seconds iso.
Proof.
  unfold iso_seconds. destruct (after_PT iso) as [t|]; [|lia].
  pose proof (iso_groups_numeral t) as H.
  destruct (iso_groups t) as [[h m] s]. destruct H as (Hh & Hm & Hs).
  apply group_value_nonneg in Hh, Hm, Hs. lia.
Qed.

Lemma parseDuration_of_formatDuration (iso : string) :
  iso_seconds iso < 2 ^ 53 ->
  (lengthText <- formatDuration iso ;; parseDuration (Some lengthText)) =
  Normal (Some (Num (iso_seconds iso))).
Proof.
  unfold iso_seconds.
  destruct (after_PT iso) as [t|] eqn:Et.
  - pose proof (iso_groups_numeral t) as H.
    destruct (iso_groups t) as [[h m] s] eqn:Eg.
    destruct H as (Hh & Hm & Hs). intros Hsafe.
    apply group_value_nonneg in Hh, Hm, Hs.
    rewrite (formatDuration_reference iso t h m s Et Eg) by lia.
    cbn [bind]. apply parseDuration_clock; assumption.
  - intros _. rewrite (formatDuration_no_match iso Et). reflexivity.
Qed.

Lemma append_nonempty (a b : string) : b <> "" -> a ++ b <> "".
Proof. destruct a; [trivial | discriminate]. Qed.

(** The length text of the service is never empty, so that the helper
    reads a number from it. *)
Lemma formatDuration_duration (iso : string) :
  exists seconds,
    (lengthText <- formatDuration iso ;; parseDuration (Some lengthText)) =
    Normal (Some seconds).
Proof.
  rewrite formatDuration_groups. cbn [bind].
  match goal with
  | |- exists _, parseDuration (Some ?text) = _ =>
      assert (Hne : text <> "")
  end.
  { destruct (after_PT iso) as [t|]; [|discriminate].
    destruct (iso_groups t) as [[h m] s].
    destruct (gtb _ _); apply append_nonempty; discriminate. }
  rewrite (parseDuration_text _ Hne). eexists. reflexivity.
Qed.

Lemma after_PT_no_P (s : string) :
  none_chars (fun c => Ascii.eqb c "P") s = true -> after_PT s = None.
Proof.
  unfold none_chars. induction s as [|a s IH]; [reflexivity|].
  cbn [all_chars]. intros H. apply andb_true_iff in H. destruct H as [Ha Hs].
  apply negb_true_iff in Ha. rewrite RegexFacts.after_PT_cons, Ha.
  apply IH, Hs.
Qed.

Lemma none_chars_append (p : ascii -> bool) (a b : string) :
  none_chars p (a ++ b) = none_chars p a && none_chars p b.
Proof.
  unfold none_chars. induction a as [|c a IH]; simpl; [reflexivity|].
  rewrite IH. apply andb_assoc.
Qed.

(** The record [transformYouTubeVideo] builds, field by field. *)
Lemma transformYouTubeVideo_record
  (lookup : string -> completion string) (video : YouTubeVideoAPIResponse)
  (includeStreamUrl : bool) :
  exists d c,
    parseDuration (api_lengthText video) = Normal d
    /\ parseViewCount (api_viewCount video) = Normal c
    /\ transformYouTubeVideo lookup video includeStreamUrl =
       (Normal
          {| id := api_id video;
             name := api_title video;
             type := "youtube";
             duration := d;
             url := "https://www.youtube.com/watch?v=" ++ api_id video;
             image :=
               map (fun thumb =>
                      {| quality := formatImageQuality (thumb_width thumb);
                         image_url := thumb_url thumb |})
                 (api_thumbnails video);
             channel := {| channel_id := api_channelId video;
                           channel_name := api_channelTitle video |};
             description := api_description video;
             publishDate :=
               if truthy_string (api_publishDate video)
               then api_publishDate video else None;
             viewCount := c;
             isLive := truthy_bool (api_isLive video);
             streamUrl :=
               if includeStreamUrl then
                 match lookup (api_id video) with
                 | Normal u => Some u
                 | Throw _ => None
                 end
               else None |},
        if includeStreamUrl then
          match lookup (api_id video) with
          | Normal _ => []
          | Throw e =>
              [ {| log_text :=
                     "Failed to get stream URL for " ++ api_id video ++ ":";
                   log_error := e |} ]
          end
        else []).
Proof.
  destruct (call_total (ParseDuration (api_lengthText video))) as [dv Hd].
  destruct (call_total (ParseViewCount (api_viewCount video))) as [cv Hc].
  cbn [call] in Hd, Hc.
  destruct (parseDuration (api_lengthText video)) as [d|] eqn:Ed;
    [|discriminate].
  destruct (parseViewCount (api_viewCount video)) as [c|] eqn:Ec;
    [|discriminate].
  exists d, c. split; [reflexivity|]. split; [reflexivity|].
  unfold transformYouTubeVideo. rewrite Ed, Ec. cbn [bind].
  assert (Hdesc :
    (if truthy_string (Some (api_description video))
     then api_description video else "") = api_description video).
  { destruct (api_description video); reflexivity. }
  assert (Hlive :
    (if truthy_bool (api_isLive video) then true else false)
    = truthy_bool (api_isLive video)).
  { destruct (truthy_bool (api_isLive video)); reflexivity. }
  rewrite Hdesc, Hlive.
  destruct includeStreamUrl; [|reflexivity].
  destruct (lookup (api_id video)); reflexivity.
Qed.

(** *** The methods of the service *)

Lemma try_catch_normal {A : Type} (a : A) (events : list event)
  (handler : exn -> io A) :
  try_catch (Normal a, events) handler = (Normal a, events).
Proof. reflexivity. Qed.

Lemma Promise_all_cons {A : Type} (p : io A) (promises : list (io A)) :
  Promise_all (p :: promises) =
  (match fst p, fst (Promise_all promises) with
   | Normal a, Normal rest => Normal (a :: rest)
   | Throw e, _ => Throw e
   | Normal _, Throw e => Throw e
   end,
   (snd p ++ snd (Promise_all promises))%list).
Proof. reflexivity. Qed.

Lemma Promise_all_fulfilled {A B : Type} (run : B -> io A)
  (P : B -> A -> Prop) (inputs : list B) :
  (forall b, exists a, fst (run b) = Normal a /\ P b a) ->
  exists values,
    fst (Promise_all (map run inputs)) = Normal values
    /\ Forall2 P inputs values.
Proof.
  intros Hrun. induction inputs as [|b inputs IH].
  - exists []. split; [reflexivity | constructor].
  - destruct IH as (values & Hall & Hrel).
    destruct (Hrun b) as (a & Ha & HP).
    exists (a :: values). cbn [map]. rewrite Promise_all_cons, Ha, Hall.
    split; [reflexivity | constructor; assumption].
Qed.

Lemma Promise_all_silent {A B : Type} (run : B -> io A) (inputs : list B) :
  (forall b, snd (run b) = []) ->
  snd (Promise_all (map run inputs)) = [].
Proof.
  intros Hrun. induction inputs as [|b inputs IH]; [reflexivity|].
  cbn [map]. rewrite Promise_all_cons. cbn [snd]. rewrite Hrun, IH.
  reflexivity.
Qed.

Lemma item_video (getBasicInfo : string -> completion (list Format))
  (includeStreamUrl : bool) (item : VideoItem) :
  exists video,
    fst (io_bind (await (apiVideo_of item))
           (fun apiVideo => transform getBasicInfo apiVideo includeStreamUrl))
    = Normal video
    /\ video_of_item includeStreamUrl item video.
Proof.
  pose proof (parseDuration_of_formatDuration (contentDetails_duration item))
    as Hsec.
  destruct (formatDuration_duration (contentDetails_duration item))
    as [seconds Hsome].
  unfold apiVideo_of.
  destruct (formatDuration (contentDetails_duration item)) as [text|e] eqn:Ef;
    [|discriminate].
  cbn [bind] in Hsec, Hsome |- *. unfold await, io_bind, transform.
  match goal with
  | |- context [transformYouTubeVideo ?l ?v ?b] =>
      destruct (transformYouTubeVideo_record l v b) as (d & c & Hd & _ & ->)
  end.
  cbn [api_lengthText] in Hd. rewrite Hsome in Hd. injection Hd as <-.
  eexists. split; [reflexivity|].
  unfold video_of_item.
  cbn [id name url duration isLive image streamUrl api_id api_title
       api_isLive api_thumbnails truthy_bool].
  repeat split.
  - discriminate.
  - intros Hsafe. rewrite Hsec in Hsome by exact Hsafe. congruence.
  - destruct (String.eqb (liveBroadcastContent item) "live"); reflexivity.
  - rewrite !length_map. reflexivity.
  - intros ->. reflexivity.
Qed.

(** What a lookup of one item writes to the console: at most one line,
    and no request. *)
Lemma item_video_console (getBasicInfo : string -> completion (list Format))
  (includeStreamUrl : bool) (item : VideoItem) :
  let console :=
    snd (io_bind (await (apiVideo_of item))
           (fun apiVideo => transform getBasicInfo apiVideo includeStreamUrl))
  in
  forallb console_line console = true /\ (List.length console <= 1)%nat.
Proof.
  unfold apiVideo_of.
  destruct (formatDuration (contentDetails_duration item)) as [text|e];
    [|split; [reflexivity | simpl; lia]].
  cbn [bind]. unfold await, io_bind, transform.
  match goal with
  | |- context [transformYouTubeVideo ?l ?v ?b] =>
      destruct (transformYouTubeVideo_record l v b) as (d & c & _ & _ & ->)
  end.
  destruct includeStreamUrl; [|split; [reflexivity | simpl; lia]].
  match goal with
  | |- context [match ?x with Normal _ => _ | Throw _ => _ end] => destruct x
  end; split; try reflexivity; simpl; lia.
Qed.

Lemma Promise_all_console {A B : Type} (run : B -> io A) (inputs : list B) :
  (forall b, forallb console_line (snd (run b)) = true
             /\ (List.length (snd (run b)) <= 1)%nat) ->
  forallb console_line (snd (Promise_all (map run inputs))) = true
  /\ (List.length (snd (Promise_all (map run inputs)))
      <= List.length inputs)%nat.
Proof.
  intros Hrun. induction inputs as [|b inputs IH]; [split; [reflexivity | simpl; lia]|].
  cbn [map]. rewrite Promise_all_cons. cbn [snd List.length].
  destruct (Hrun b) as [Hb Hlen]. destruct IH as [Hall Hcount].
  rewrite forallb_app, Hb, Hall, length_app. split; [reflexivity | lia].
Qed.

Lemma item_video_silent (getBasicInfo : string -> completion (list Format))
  (item : VideoItem) :
  snd (io_bind (await (apiVideo_of item))
         (fun apiVideo => transform getBasicInfo apiVideo false)) = [].
Proof.
  unfold apiVideo_of.
  destruct (formatDuration (contentDetails_duration item)) as [text|e];
    [|reflexivity].
  cbn [bind]. unfold await, io_bind, transform.
  match goal with
  | |- context [transformYouTubeVideo ?l ?v ?b] =>
      destruct (transformYouTubeVideo_record l v b) as (d & c & _ & _ & ->)
  end.
  reflexivity.
Qed.

(** *** Blank ids *)

Lemma trim_start_empty (s : string) :
  trim_start s = "" <-> all_chars is_white_space s = true.
Proof.
  induction s as [|a s IH]; simpl; [tauto|].
  destruct (is_white_space a); simpl; [exact IH|].
  split; discriminate.
Qed.

Lemma reverse_string_empty (s acc : string) :
  reverse_string s acc = "" <-> s = "" /\ acc = "".
Proof.
  revert acc. induction s as [|a s IH]; intros acc; simpl.
  - tauto.
  - rewrite IH. split; [intros [_ H]; discriminate | intros [H _]; discriminate].
Qed.

Lemma all_white_reverse (s acc : string) :
  all_chars is_white_space (reverse_string s acc) =
  all_chars is_white_space s && all_chars is_white_space acc.
Proof.
  revert acc. induction s as [|a s IH]; intros acc; simpl; [reflexivity|].
  rewrite IH. simpl.
  destruct (is_white_space a), (all_chars is_white_space s),
    (all_chars is_white_space acc); reflexivity.
Qed.

Lemma trim_empty (s : string) :
  trim s = "" <-> all_chars is_white_space s = true.
Proof.
  unfold trim. rewrite reverse_string_empty, trim_start_empty.
  rewrite all_white_reverse, andb_true_r.
  split.
  - intros [H _]. destruct (all_chars is_white_space s) eqn:E; [reflexivity|].
    assert (Hne : trim_start s <> "").
    { intros Hs. apply trim_start_empty in Hs. congruence. }
    assert (Hw : all_chars is_white_space (trim_start s) = false).
    { clear H E. induction s as [|a s IH]; simpl in *; [congruence|].
      destruct (is_white_space a) eqn:Ea; [apply IH, Hne|].
      simpl. rewrite Ea. reflexivity. }
    congruence.
  - intros H. split; [|reflexivity].
    apply trim_start_empty in H. rewrite H. reflexivity.
Qed.

Lemma valid_id_blank (id : string) :
  truthy_string (Some id) && negb (String.eqb (trim id) "") =
  negb (blank id).
Proof.
  unfold blank. destruct (String.eqb_spec (trim id) "") as [Ht|Ht].
  - apply trim_empty in Ht. rewrite Ht. apply andb_false_r.
  - destruct (all_chars is_white_space id) eqn:E.
    + apply trim_empty in E. contradiction.
    + destruct id; [discriminate E | reflexivity].
Qed.

Lemma valid_ids_filter (ids : list string) :
  filter
    (fun id => truthy_string (Some id) && negb (String.eqb (trim id) ""))
    ids =
  filter (fun id => negb (blank id)) ids.
Proof.
  apply filter_ext. intros id. apply valid_id_blank.
Qed.

(** *** The outcomes of getVideosByIds *)

Section Outcomes.
Variable apiKey : string.
Variable fetch_search : URL -> completion (Response SearchBody).
Variable fetch_videos : URL -> completion (Response VideosBody).
Variable getBasicInfo : string -> completion (list Format).

Let failed (url : URL) (e : exn) : io (list YouTubeVideo) :=
  (Throw (Error "Failed to fetch video details"),
   [Fetched url; ConsoleError "Failed to get video details:" (OfError e)]).

Lemma getVideosByIds_cases (videoIds : list string)
  (includeStreamUrl : bool) :
  let run := getVideosByIds apiKey fetch_videos getBasicInfo videoIds
               includeStreamUrl in
  match filter (fun id => negb (blank id)) videoIds with
  | [] => run = (Normal [], [])
  | valid =>
      let url := videos_url apiKey valid in
      match fetch_videos url with
      | Throw e => run = failed url e
      | Normal response =>
          if ok response then
            match json response with
            | Throw e => run = failed url e
            | Normal data =>
                match video_items data with
                | None => run = failed url TypeError
                | Some items =>
                    exists videos console,
                      run = (Normal videos, Fetched url :: console)
                      /\ Forall2 (video_of_item includeStreamUrl) items videos
                      /\ (includeStreamUrl = false -> console = [])
                      /\ forallb console_line console = true
                      /\ (List.length console <= List.length items)%nat
                end
            end
          else
            run = failed url
                    (Error ("YouTube API error: "
                            ++ toString (Num (status response))))
      end
  end.
Proof.
  intros run. subst run. unfold getVideosByIds.
  rewrite valid_ids_filter.
  set (run_item := fun item : VideoItem =>
         io_bind (await (apiVideo_of item))
           (fun apiVideo => transform getBasicInfo apiVideo includeStreamUrl)).
  destruct (filter (fun id => negb (blank id)) videoIds) as [|v valid] eqn:Ev;
    [reflexivity|].
  cbn [List.length Nat.eqb].
  change (set_param "key" apiKey
            (set_param "id" (join "," (v :: valid))
               (set_param "part" "snippet,contentDetails,statistics"
                  (new_URL "https://www.googleapis.com/youtube/v3/videos"))))
    with (videos_url apiKey (v :: valid)).
  cbv zeta. unfold fetch.
  destruct (fetch_videos (videos_url apiKey (v :: valid))) as [response|e];
    [|reflexivity].
  cbn [io_bind]. destruct (ok response); cbn [negb]; [|reflexivity].
  unfold await. destruct (json response) as [data|e]; [|reflexivity].
  cbn [io_bind].
  destruct (video_items data) as [items|]; [|reflexivity].
  cbn [deref io_bind].
  destruct (Promise_all_fulfilled run_item (video_of_item includeStreamUrl)
              items (item_video getBasicInfo includeStreamUrl))
    as (videos & Hall & Hrel).
  destruct (Promise_all (map run_item items)) as [r console] eqn:Ep.
  cbn [fst] in Hall. subst r.
  exists videos, console. split; [reflexivity|]. split; [exact Hrel|].
  pose proof (Promise_all_console run_item items
                (item_video_console getBasicInfo includeStreamUrl)) as Hc.
  rewrite Ep in Hc. split; [|exact Hc].
  intros ->.
  pose proof (Promise_all_silent run_item items
                (item_video_silent getBasicInfo)) as Hs.
  rewrite Ep in Hs. exact Hs.
Qed.

(** getVideosByIds settles with videos or with its own error. *)
Lemma getVideosByIds_settles (videoIds : list string)
  (includeStreamUrl : bool) :
  exists r events,
    getVideosByIds apiKey fetch_videos getBasicInfo videoIds includeStreamUrl
    = (r, events)
    /\ (r = Throw (Error "Failed to fetch video details")
        \/ exists videos,
             r = Normal videos
             /\ (includeStreamUrl = false ->
                 Forall (fun video => streamUrl video = None) videos)).
Proof.
  pose proof (getVideosByIds_cases videoIds includeStreamUrl) as H.
  cbv zeta in H.
  destruct (filter (fun id => negb (blank id)) videoIds) as [|v valid].
  { rewrite H. eexists; eexists. split; [reflexivity|]. right.
    exists []. split; [reflexivity|]. constructor. }
  destruct (fetch_videos _) as [response|e];
    [|rewrite H; eexists; eexists; split; [reflexivity | left; reflexivity]].
  destruct (ok response);
    [|rewrite H; eexists; eexists; split; [reflexivity | left; reflexivity]].
  destruct (json response) as [data|e];
    [|rewrite H; eexists; eexists; split; [reflexivity | left; reflexivity]].
  destruct (video_items data) as [items|];
    [|rewrite H; eexists; eexists; split; [reflexivity | left; reflexivity]].
  destruct H as (videos & console & -> & Hrel & _).
  eexists; eexists. split; [reflexivity|]. right.
  exists videos. split; [reflexivity|]. intros ->.
  clear -Hrel. induction Hrel as [|item video items videos Hv _ IH];
    constructor; [|exact IH].
  apply Hv. reflexivity.
Qed.

Lemma getVideosByIds_blank_ids' (videoIds : list string)
  (includeStreamUrl : bool) :
  (forall id, In id videoIds -> blank id = true) ->
  getVideosByIds apiKey fetch_videos getBasicInfo videoIds includeStreamUrl
  = (Normal [], []).
Proof.
  intros Hblank.
  pose proof (getVideosByIds_cases videoIds includeStreamUrl) as H.
  cbv zeta in H.
  rewrite (SpawnFacts.filter_nothing (fun id => negb (blank id)) videoIds)
    in H.
  - exact H.
  - intros id Hid. rewrite (Hblank id Hid). reflexivity.
Qed.

Lemma getSuggestions_never_rejects' (videoId : string) (limit : number) :
  exists suggestions events,
    getSuggestions apiKey fetch_search fetch_videos getBasicInfo videoId limit
    = (Normal suggestions,
       Fetched (related_url apiKey videoId (toString limit)) :: events)
    /\ Forall (fun video => streamUrl video = None) suggestions.
Proof.
  unfold getSuggestions.
  change (set_param "key" apiKey
            (set_param "maxResults" (toString limit)
               (set_param "type" "video"
                  (set_param "relatedToVideoId" videoId
                     (set_param "part" "snippet"
                        (new_URL
                           "https://www.googleapis.com/youtube/v3/search"))))))
    with (related_url apiKey videoId (toString limit)).
  cbv zeta. unfold fetch.
  destruct (fetch_search _) as [response|e];
    [|eexists; eexists; split; [reflexivity | constructor]].
  cbn [io_bind]. destruct (ok response); cbn [negb];
    [|eexists; eexists; split; [reflexivity | constructor]].
  unfold await. destruct (json response) as [data|e];
    [|eexists; eexists; split; [reflexivity | constructor]].
  cbn [io_bind].
  destruct (search_items data) as [[|item items]|];
    try (eexists; eexists; split; [reflexivity | constructor]).
  destruct (getVideosByIds_settles (videoIds_of (item :: items)) false)
    as (r & events & -> & [-> | (videos & -> & Hnone)]).
  - eexists; eexists; split; [reflexivity | constructor].
  - eexists; eexists; split; [reflexivity | apply Hnone; reflexivity].
Qed.

Lemma getVideoById_settles (videoId : string) (includeStreamUrl : bool) :
  exists r events,
    getVideoById apiKey fetch_videos getBasicInfo videoId includeStreamUrl
    = (r, events)
    /\ (r = Throw (Error "Failed to fetch YouTube video details")
        \/ exists video, r = Normal video).
Proof.
  unfold getVideoById.
  destruct (getVideosByIds_settles [videoId] includeStreamUrl)
    as (r & events & -> & [-> | (videos & -> & _)]).
  - eexists; eexists; split; [reflexivity | left; reflexivity].
  - destruct videos as [|video videos];
      eexists; eexists; (split; [reflexivity|]);
      [left; reflexivity | right; eexists; reflexivity].
Qed.

Lemma searchVideos_settles (query : string) (limit : number)
  (includeStreamUrl : bool) :
  exists r events,
    searchVideos apiKey fetch_search fetch_videos getBasicInfo query limit
      includeStreamUrl
    = (r, Fetched (search_url apiKey query (toString limit)) :: events)
    /\ (r = Throw (Error "Failed to search YouTube videos")
        \/ exists videos token, r = Normal (videos, token)).
Proof.
  unfold searchVideos.
  change (set_param "key" apiKey
            (set_param "type" "video"
               (set_param "maxResults" (toString limit)
                  (set_param "q" query
                     (set_param "part" "snippet"
                        (new_URL
                           "https://www.googleapis.com/youtube/v3/search"))))))
    with (search_url apiKey query (toString limit)).
  cbv zeta. unfold fetch.
  destruct (fetch_search _) as [response|e];
    [|eexists; eexists; split; [reflexivity | left; reflexivity]].
  cbn [io_bind]. destruct (ok response); cbn [negb];
    [|eexists; eexists; split; [reflexivity | left; reflexivity]].
  unfold await. destruct (json response) as [data|e];
    [|eexists; eexists; split; [reflexivity | left; reflexivity]].
  cbn [io_bind].
  destruct (search_items data) as [[|item items]|];
    try (eexists; eexists; split;
         [reflexivity | right; eexists; eexists; reflexivity]).
  destruct (List.length (videoIds_of (item :: items)) =? 0)%nat;
    [eexists; eexists; split;
     [reflexivity | right; eexists; eexists; reflexivity]|].
  destruct (getVideosByIds_settles (videoIds_of (item :: items))
              includeStreamUrl)
    as (r & events & -> & [-> | (videos & -> & _)]).
  - eexists; eexists; split; [reflexivity | left; reflexivity].
  - eexists; eexists; split;
      [reflexivity | right; eexists; eexists; reflexivity].
Qed.

End Outcomes.

End ServiceFacts.

(* ================================================================== *)
(** ** The properties of the lookup, the service and the routes *)
(* ================================================================== *)

Import JSArray Spawn SpawnFacts.
Import YouTubeServiceMethods ServiceReference ServiceFacts YouTubeController.

(** X2.  Whatever text the videos endpoint gives as duration, the length
    text formatDuration makes of it is not empty, and parseDuration reads
    a number back from it, never [null].  When the seconds of the groups
    after the first PT (0 when PT does not occur) are below 2^53, the
    number is these seconds; they are never negative.  Beyond that the
    length text is no list of numerals: 10^21 seconds are printed as
    1e+21 and read back as 1 second. *)
Theorem duration_of_every_iso_text (isoDuration : string) :
  (exists seconds,
      (lengthText <- formatDuration isoDuration ;;
       parseDuration (Some lengthText))
      = Normal (Some seconds))
  /\ (iso_seconds isoDuration < 2 ^ 53 ->
      (lengthText <- formatDuration isoDuration ;;
       parseDuration (Some lengthText))
      = Normal (Some (Num (iso_seconds isoDuration))))
  /\ 0 <= iso_seconds isoDuration
  /\ (lengthText <- formatDuration "PT1000000000000000000000S" ;;
      parseDuration (Some lengthText))
     = Normal (Some (Num 1)).
Proof.
  split; [apply formatDuration_duration|].
  split; [apply parseDuration_of_formatDuration|].
  split; [apply iso_seconds_nonneg|].
  vm_compute. reflexivity.
Qed.

(** X3.  For a text that is not empty, parseDuration returns [NaN]
    whenever parseInt reads no integer at the start of one of the parts
    between colons; so an empty part (a colon at either end, two colons in
    a row) makes the whole duration [NaN]. *)
Theorem parseDuration_nan_part (text : string) (Htext : text <> "") :
  ((exists part, In part (split ":" text) /\ parseInt part = NaN) ->
   parseDuration (Some text) = Normal (Some NaN))
  /\ (In "" (split ":" text) ->
      parseDuration (Some text) = Normal (Some NaN)).
Proof.
  assert (Hif :
    (exists part, In part (split ":" text) /\ parseInt part = NaN) ->
    parseDuration (Some text) = Normal (Some NaN)).
  { intros (part & Hin & Hp).
    rewrite (parseDuration_text text Htext). do 2 f_equal.
    apply seconds_loop_nan. right. exists part.
    split; [apply in_rev in Hin; exact Hin | exact Hp]. }
  split; [exact Hif|].
  intros Hempty. apply Hif. exists "". split; [exact Hempty | reflexivity].
Qed.

Lemma parseDuration_nan_part_witness :
  parseDuration (Some "1::30") = Normal (Some NaN).
Proof.
  apply (proj2 (parseDuration_nan_part "1::30" ltac:(discriminate))).
  right. left. reflexivity.
Defined.

(** X4.  An ISO duration with a day part, P<n>D followed by a text without
    a further P (as in P1DT2H3M4S), has no PT in it: formatDuration gives
    "0:00", and the duration read back is 0 seconds. *)
Theorem formatDuration_days (days : N) (rest : string)
  (Hrest : none_chars (fun c => Ascii.eqb c "P") rest = true) :
  formatDuration ("P" ++ decimal_string days ++ "D" ++ rest) = Normal "0:00"
  /\ (lengthText <-
        formatDuration ("P" ++ decimal_string days ++ "D" ++ rest) ;;
      parseDuration (Some lengthText))
     = Normal (Some (Num 0)).
Proof.
  assert (Hnone : after_PT ("P" ++ decimal_string days ++ "D" ++ rest) = None).
  { change ("P" ++ ?x) with (String "P" x). rewrite after_PT_cons.
    cbn [Ascii.eqb Bool.eqb].
    assert (Htail : after_PT (decimal_string days ++ "D" ++ rest) = None).
    { apply after_PT_no_P. rewrite none_chars_append.
      apply andb_true_iff. split.
      - unfold none_chars.
        pose proof (numeral_decimal_string days) as Hn.
        apply numeral_all_digits in Hn. revert Hn. apply all_chars_impl.
        intros a Ha. apply negb_true_iff, digit_neq; [exact Ha | reflexivity].
      - rewrite none_chars_append, Hrest. reflexivity. }
    pose proof (numeral_decimal_string days) as Hn.
    unfold numeral in Hn. apply andb_true_iff in Hn. destruct Hn as [Hall Hne].
    destruct (decimal_string days) as [|b d] eqn:E; [discriminate|].
    simpl in Hall. apply andb_true_iff in Hall. destruct Hall as [Hb _].
    cbn [append].
    rewrite (digit_neq b "T" Hb) by reflexivity.
    exact Htail. }
  rewrite (formatDuration_no_match _ Hnone). split; reflexivity.
Qed.

Lemma formatDuration_days_witness :
  formatDuration "P1DT2H3M4S" = Normal "0:00"
  /\ (lengthText <- formatDuration "P1DT2H3M4S" ;;
      parseDuration (Some lengthText))
     = Normal (Some (Num 0)).
Proof.
  exact (formatDuration_days 1 "T2H3M4S" eq_refl).
Defined.

(** X5.  parseViewCount returns [null], [NaN], Infinity or an integer that
    is not negative: a sign in front of the digits is not part of the run
    and is dropped. *)
Theorem parseViewCount_range (viewCountText : option string) :
  parseViewCount viewCountText = Normal None
  \/ parseViewCount viewCountText = Normal (Some NaN)
  \/ parseViewCount viewCountText = Normal (Some (Infinity false))
  \/ exists n, 0 <= n /\ parseViewCount viewCountText = Normal (Some (Num n)).
Proof.
  destruct viewCountText as [text|]; [|left; reflexivity].
  rewrite parseViewCount_reference.
  destruct (first_run digit_or_comma text) as [run|] eqn:E;
    [|left; reflexivity].
  right. destruct (first_run_some _ _ _ E) as (pre & post & _ & _ & Hrun & _).
  rewrite (parseInt_view_run run Hrun).
  pose proof (remove_comma_digits run Hrun) as Hd.
  destruct (remove_char "," run) as [|a d] eqn:Er; [left; reflexivity|].
  right.
  destruct (to_double_nonneg _ (decimal_nonneg _ Hd)) as [->|(m & Hm & ->)].
  - left. reflexivity.
  - right. exists m. split; [exact Hm | reflexivity].
Qed.

(** X6.  transformYouTubeVideo never rejects because of the stream lookup.
    With the flag off the lookup is not used, streamUrl is [null] and
    nothing is logged; with the flag on, a fulfilled lookup gives its url
    as streamUrl and logs nothing, and a rejected lookup gives streamUrl
    [null] and one console line that names the id and carries the
    error. *)
Theorem transformYouTubeVideo_stream_lookup
  (lookup : string -> completion string) (video : YouTubeVideoAPIResponse) :
  (exists r,
      transformYouTubeVideo lookup video false = (Normal r, [])
      /\ streamUrl r = None)
  /\ (forall u,
         lookup (api_id video) = Normal u ->
         exists r,
           transformYouTubeVideo lookup video true = (Normal r, [])
           /\ streamUrl r = Some u)
  /\ (forall e,
         lookup (api_id video) = Throw e ->
         exists r,
           transformYouTubeVideo lookup video true
           = (Normal r,
              [ {| log_text :=
                     "Failed to get stream URL for " ++ api_id video ++ ":";
                   log_error := e |} ])
           /\ streamUrl r = None).
Proof.
  split; [|split].
  - destruct (transformYouTubeVideo_record lookup video false)
      as (d & c & _ & _ & ->).
    eexists. split; reflexivity.
  - intros u Hu.
    destruct (transformYouTubeVideo_record lookup video true)
      as (d & c & _ & _ & ->).
    rewrite Hu. eexists. split; reflexivity.
  - intros e He.
    destruct (transformYouTubeVideo_record lookup video true)
      as (d & c & _ & _ & ->).
    rewrite He. eexists. split; reflexivity.
Qed.

(** X7.  The record transformYouTubeVideo returns copies id, title,
    description and channel of the upstream record.  publishDate is
    [null] exactly when the upstream date is missing or empty and is the
    upstream date otherwise; isLive is true exactly when the upstream
    flag is true; duration is [null] exactly when the length text is
    missing or empty. *)
Theorem transformYouTubeVideo_copied_fields
  (lookup : string -> completion string) (video : YouTubeVideoAPIResponse)
  (includeStreamUrl : bool) :
  exists r,
    fst (transformYouTubeVideo lookup video includeStreamUrl) = Normal r
    /\ id r = api_id video
    /\ name r = api_title video
    /\ description r = api_description video
    /\ channel r = {| channel_id := api_channelId video;
                      channel_name := api_channelTitle video |}
    /\ (publishDate r = None <-> missing (api_publishDate video) = true)
    /\ (forall date, publishDate r = Some date ->
                     api_publishDate video = Some date)
    /\ (isLive r = true <-> api_isLive video = Some true)
    /\ (duration r = None <-> missing (api_lengthText video) = true).
Proof.
  destruct (transformYouTubeVideo_record lookup video includeStreamUrl)
    as (d & c & Hd & _ & ->).
  eexists. split; [reflexivity|].
  cbn [id name description channel publishDate isLive duration].
  unfold missing. repeat split.
  - destruct (api_publishDate video) as [[|a date]|]; simpl;
      congruence.
  - destruct (api_publishDate video) as [[|a date]|]; simpl;
      congruence.
  - destruct (api_publishDate video) as [[|a date]|]; simpl; congruence.
  - destruct (api_isLive video) as [[|]|]; simpl; congruence.
  - destruct (api_isLive video) as [[|]|]; simpl; congruence.
  - intros ->. destruct (api_lengthText video) as [[|a text]|];
      try reflexivity.
    rewrite parseDuration_text in Hd by discriminate. discriminate.
  - intros Hm. destruct (api_lengthText video) as [[|a text]|];
      simpl in Hm; try discriminate; cbv in Hd; congruence.
Qed.

(** X8.  When getYouTubeStreamUrl returns a url, the url is not empty and
    is that of a format with audio of the info, whose bitrate (0 when it
    has none) is at least that of every format with audio and no video. *)
Theorem getYouTubeStreamUrl_sound
  (getBasicInfo : string -> completion (list Format)) (videoId u : string)
  (Hreturn : getYouTubeStreamUrl getBasicInfo videoId = Normal u) :
  u <> ""
  /\ exists formats f,
       getBasicInfo ("https://www.youtube.com/watch?v=" ++ videoId)
       = Normal formats
       /\ In f formats
       /\ hasAudio f = true
       /\ format_url f = Some u
       /\ forall g, In g formats -> hasAudio g = true -> hasVideo g = false ->
                    bitrate_key g <= bitrate_key f.
Proof.
  unfold getYouTubeStreamUrl in Hreturn.
  destruct (getBasicInfo _) as [formats|e] eqn:Einfo; [|discriminate].
  cbn [bind] in Hreturn.
  set (only := filter (fun f => hasAudio f && negb (hasVideo f)) formats) in *.
  set (audio := filter (fun f => hasAudio f) formats) in *.
  assert (Hsub : forall g, In g formats -> hasAudio g = true ->
                           hasVideo g = false -> In g only).
  { intros g Hg Ha Hv. apply filter_audio_only. auto. }
  assert (Hsub' : forall g, In g formats -> hasAudio g = true -> In g audio).
  { intros g Hg Ha. apply filter_In. auto. }
  destruct (hd_error (sort by_bitrate only)) as [f|] eqn:Eonly.
  - destruct (truthy_string (format_url f)) eqn:Eurl.
    + cbn [deref bind] in Hreturn. injection Hreturn as <-.
      destruct (truthy_string_some _ Eurl) as (u & Hu & Hne & Hs).
      rewrite Hs. split; [exact Hne|].
      destruct (hd_sort_max _ _ Eonly) as [Hin Hmax].
      apply filter_audio_only in Hin. destruct Hin as (Hin & Ha & Hv).
      exists formats, f. repeat split; auto.
    + destruct (hd_error (sort by_bitrate audio)) as [f'|] eqn:Eaudio;
        [|discriminate].
      destruct (truthy_string (format_url f')) eqn:Eurl'; [|discriminate].
      cbn [negb deref bind] in Hreturn. injection Hreturn as <-.
      destruct (truthy_string_some _ Eurl') as (u & Hu & Hne & Hs).
      rewrite Hs. split; [exact Hne|].
      destruct (hd_sort_max _ _ Eaudio) as [Hin Hmax].
      apply filter_In in Hin. destruct Hin as (Hin & Ha).
      exists formats, f'. repeat split; auto.
  - destruct (hd_error (sort by_bitrate audio)) as [f'|] eqn:Eaudio;
      [|discriminate].
    destruct (truthy_string (format_url f')) eqn:Eurl'; [|discriminate].
    cbn [negb deref bind] in Hreturn. injection Hreturn as <-.
    destruct (truthy_string_some _ Eurl') as (u & Hu & Hne & Hs).
    rewrite Hs. split; [exact Hne|].
    destruct (hd_sort_max _ _ Eaudio) as [Hin Hmax].
    apply filter_In in Hin. destruct Hin as (Hin & Ha).
    exists formats, f'. repeat split; auto.
Qed.

(** X9.  When some format has audio and no video and every such format
    has a url, getYouTubeStreamUrl returns the url of one of them, of the
    highest bitrate among them, whatever the bitrates of the formats with
    video. *)
Theorem getYouTubeStreamUrl_prefers_audio_only
  (getBasicInfo : string -> completion (list Format)) (videoId : string)
  (formats : list Format) (g0 : Format)
  (Hinfo : getBasicInfo ("https://www.youtube.com/watch?v=" ++ videoId)
           = Normal formats)
  (Hsome : In g0 formats /\ hasAudio g0 = true /\ hasVideo g0 = false)
  (Hurls : forall g, In g formats -> hasAudio g = true -> hasVideo g = false ->
                     truthy_string (format_url g) = true) :
  exists f u,
    getYouTubeStreamUrl getBasicInfo videoId = Normal u
    /\ In f formats
    /\ hasAudio f = true /\ hasVideo f = false
    /\ format_url f = Some u
    /\ forall g, In g formats -> hasAudio g = true -> hasVideo g = false ->
                 bitrate_key g <= bitrate_key f.
Proof.
  unfold getYouTubeStreamUrl. rewrite Hinfo. cbn [bind].
  set (only := filter (fun f => hasAudio f && negb (hasVideo f)) formats).
  destruct (hd_error (sort by_bitrate only)) as [f|] eqn:Eonly.
  - destruct (hd_sort_max _ _ Eonly) as [Hin Hmax].
    apply filter_audio_only in Hin. destruct Hin as (Hin & Ha & Hv).
    rewrite (Hurls f Hin Ha Hv). cbn [deref bind].
    destruct (truthy_string_some _ (Hurls f Hin Ha Hv)) as (u & Hu & _ & Hs).
    exists f, u. rewrite Hs. repeat split; auto.
    intros g Hg Hga Hgv. apply Hmax, filter_audio_only. auto.
  - apply hd_sort_none in Eonly.
    assert (Hg0 : In g0 only) by (apply filter_audio_only; exact Hsome).
    rewrite Eonly in Hg0. destruct Hg0.
Qed.

(** X10.  getYouTubeStreamUrl rejects with the error of the info lookup
    when that is rejected, and with "No suitable format found" when no
    format has audio.  It also rejects with that error when the format of
    strictly highest bitrate among those with audio has no video and no
    url, although other formats may have one: only the first format of
    each sorted list is tried. *)
Theorem getYouTubeStreamUrl_rejections
  (getBasicInfo : string -> completion (list Format)) (videoId : string) :
  (forall e,
      getBasicInfo ("https://www.youtube.com/watch?v=" ++ videoId) = Throw e ->
      getYouTubeStreamUrl getBasicInfo videoId = Throw e)
  /\ (forall formats,
         getBasicInfo ("https://www.youtube.com/watch?v=" ++ videoId)
         = Normal formats ->
         (forall g, In g formats -> hasAudio g = false) ->
         getYouTubeStreamUrl getBasicInfo videoId
         = Throw (Error "No suitable format found"))
  /\ (forall formats f,
         getBasicInfo ("https://www.youtube.com/watch?v=" ++ videoId)
         = Normal formats ->
         In f formats ->
         hasAudio f = true -> hasVideo f = false ->
         truthy_string (format_url f) = false ->
         (forall g, In g formats -> hasAudio g = true ->
                    g = f \/ bitrate_key g < bitrate_key f) ->
         getYouTubeStreamUrl getBasicInfo videoId
         = Throw (Error "No suitable format found")).
Proof.
  unfold getYouTubeStreamUrl. split; [|split].
  - intros e ->. reflexivity.
  - intros formats -> Hnone. cbn [bind].
    assert (E1 : filter (fun f => hasAudio f && negb (hasVideo f)) formats = []).
    { apply filter_nothing. intros g Hg. rewrite (Hnone g Hg). reflexivity. }
    assert (E2 : filter (fun f => hasAudio f) formats = []).
    { apply filter_nothing. exact Hnone. }
    rewrite E1, E2. reflexivity.
  - intros formats f -> Hin Ha Hv Hurl Hbest. cbn [bind].
    rewrite (hd_sort_strict _ f).
    + rewrite Hurl.
      rewrite (hd_sort_strict _ f).
      * rewrite Hurl. reflexivity.
      * apply filter_In. auto.
      * intros g Hg. apply filter_In in Hg. destruct Hg as [Hg Hga].
        apply Hbest; assumption.
    + apply filter_audio_only. auto.
    + intros g Hg. apply filter_audio_only in Hg.
      destruct Hg as (Hg & Hga & _). apply Hbest; assumption.
Qed.

Lemma getYouTubeStreamUrl_rejections_witness :
  let low := {| hasAudio := true; hasVideo := false;
                bitrate := Some (Num 64); format_url := Some "https://a" |} in
  let top := {| hasAudio := true; hasVideo := false;
                bitrate := Some (Num 128); format_url := None |} in
  getYouTubeStreamUrl (fun _ => Normal [low; top]) "id"
  = Throw (Error "No suitable format found").
Proof.
  intros low top.
  apply (proj2 (proj2 (getYouTubeStreamUrl_rejections
                         (fun _ => Normal [low; top]) "id"))
           [low; top] top); try reflexivity.
  - right. left. reflexivity.
  - intros g [<-|[<-|[]]] _; [right; unfold bitrate_key; simpl; lia | left; reflexivity].
Defined.

(** X11.  rewriteRequest keeps the url and the other options, and returns
    headers in which User-Agent, Accept-Language and Accept have the
    fixed values whatever the request gave, Cookie is the cookie text of
    the environment when there is one and the header of the request
    otherwise, and every other header of the request is unchanged. *)
Theorem rewriteRequest_headers (ytCookies url : string)
  (options : RequestInit) :
  let given :=
    match init_headers options with Some h => h | None => [] end in
  fst (rewriteRequest ytCookies url options) = url
  /\ init_others (snd (rewriteRequest ytCookies url options))
     = init_others options
  /\ exists headers,
       init_headers (snd (rewriteRequest ytCookies url options))
       = Some headers
       /\ get "User-Agent" headers = Some user_agent
       /\ get "Accept-Language" headers = Some "en-US,en;q=0.9"
       /\ get "Accept" headers = Some "*/*"
       /\ get "Cookie" headers
          = (if String.eqb ytCookies "" then get "Cookie" given
             else Some ytCookies)
       /\ forall name,
            name <> "User-Agent" -> name <> "Accept-Language" ->
            name <> "Accept" -> name <> "Cookie" ->
            get name headers = get name given.
Proof.
  intros given. unfold rewriteRequest. cbn [fst snd init_headers init_others].
  fold given. repeat split. eexists. split; [reflexivity|].
  destruct ytCookies as [|c cookies]; cbn [truthy_string String.eqb];
    unfold spread; cbn [fold_left put fst snd String.eqb Ascii.eqb Bool.eqb];
    repeat split;
    try (intros name H1 H2 H3 H4);
    repeat first
      [ rewrite get_put_same
      | rewrite get_put_other by (congruence || discriminate) ];
    reflexivity.
Qed.

Section ServiceProperties.
Variable apiKey : string.
Variable fetch_search : URL -> completion (Response SearchBody).
Variable fetch_videos : URL -> completion (Response VideosBody).
Variable getBasicInfo : string -> completion (list Format).

(** X12.  When every id is empty or made of white space only (no id at
    all included), getVideosByIds returns no video, sends no request and
    logs nothing. *)
Theorem getVideosByIds_blank_ids (videoIds : list string)
  (includeStreamUrl : bool)
  (Hblank : forall id, In id videoIds -> blank id = true) :
  getVideosByIds apiKey fetch_videos getBasicInfo videoIds includeStreamUrl
  = (Normal [], []).
Proof.
  pose proof (getVideosByIds_cases apiKey fetch_videos getBasicInfo videoIds
                includeStreamUrl) as H.
  cbv zeta in H.
  rewrite (filter_nothing (fun id => negb (blank id)) videoIds) in H.
  - exact H.
  - intros id Hid. rewrite (Hblank id Hid). reflexivity.
Qed.

(** X13.  When the videos endpoint answers ok with items, getVideosByIds
    has called [fetch] once, for the ids that are not blank joined by
    commas, and every event after that request is a console line (the
    stream lookups do their own work behind [getBasicInfo]).  It returns
    one video per item of the answer, in order: id, title and watch url of
    the item, a duration that is not [null] and is the seconds of the item
    when they are below 2^53, isLive exactly for the broadcast content
    "live", one image per thumbnail.  The console gets at most one line
    per item, and with streams off no line and no stream url. *)
Theorem getVideosByIds_videos (videoIds : list string)
  (includeStreamUrl : bool) (response : Response VideosBody)
  (data : VideosBody) (items : list VideoItem)
  (Hvalid : filter (fun id => negb (blank id)) videoIds <> [])
  (Hfetch : fetch_videos
              (videos_url apiKey
                 (filter (fun id => negb (blank id)) videoIds))
            = Normal response)
  (Hok : ok response = true)
  (Hjson : json response = Normal data)
  (Hitems : video_items data = Some items) :
  exists videos console,
    getVideosByIds apiKey fetch_videos getBasicInfo videoIds includeStreamUrl
    = (Normal videos,
       Fetched (videos_url apiKey
                  (filter (fun id => negb (blank id)) videoIds))
       :: console)
    /\ Forall2 (video_of_item includeStreamUrl) items videos
    /\ (includeStreamUrl = false -> console = [])
    /\ forallb console_line console = true
    /\ (List.length console <= List.length items)%nat.
Proof.
  pose proof (getVideosByIds_cases apiKey fetch_videos getBasicInfo videoIds
                includeStreamUrl) as H.
  cbv zeta in H.
  destruct (filter (fun id => negb (blank id)) videoIds) as [|v valid];
    [congruence|].
  rewrite Hfetch, Hok, Hjson, Hitems in H. exact H.
Qed.

(** X14.  With an id that is not blank, every failure of getVideosByIds
    (the request rejected, an answer that is not ok, a body that cannot be
    read, a body without items) is reported as the one error "Failed to
    fetch video details", after the single request and one console line
    that carries the cause. *)
Theorem getVideosByIds_failure (videoIds : list string)
  (includeStreamUrl : bool)
  (Hvalid : filter (fun id => negb (blank id)) videoIds <> []) :
  let url :=
    videos_url apiKey (filter (fun id => negb (blank id)) videoIds) in
  let run :=
    getVideosByIds apiKey fetch_videos getBasicInfo videoIds
      includeStreamUrl in
  let failed e :=
    run = (Throw (Error "Failed to fetch video details"),
           [Fetched url;
            ConsoleError "Failed to get video details:" (OfError e)]) in
  (forall e, fetch_videos url = Throw e -> failed e)
  /\ (forall response,
         fetch_videos url = Normal response -> ok response = false ->
         failed (Error ("YouTube API error: "
                        ++ toString (Num (status response)))))
  /\ (forall response e,
         fetch_videos url = Normal response -> ok response = true ->
         json response = Throw e -> failed e)
  /\ (forall response data,
         fetch_videos url = Normal response -> ok response = true ->
         json response = Normal data -> video_items data = None ->
         failed TypeError).
Proof.
  intros url run failed. subst url run failed. cbv beta.
  pose proof (getVideosByIds_cases apiKey fetch_videos getBasicInfo videoIds
                includeStreamUrl) as H.
  cbv zeta in H.
  destruct (filter (fun id => negb (blank id)) videoIds) as [|v valid];
    [congruence|].
  repeat split.
  - intros e He. rewrite He in H. exact H.
  - intros response Hr Hok. rewrite Hr, Hok in H. exact H.
  - intros response e Hr Hok Hj. rewrite Hr, Hok, Hj in H. exact H.
  - intros response data Hr Hok Hj Hi. rewrite Hr, Hok, Hj, Hi in H. exact H.
Qed.

(** X15.  getSuggestions never rejects: it sends the related-videos
    request and returns a list of videos, none of which has a stream url;
    the list is empty when the request is rejected. *)
Theorem getSuggestions_never_rejects (videoId : string) (limit : number) :
  exists suggestions events,
    getSuggestions apiKey fetch_search fetch_videos getBasicInfo videoId limit
    = (Normal suggestions,
       Fetched (related_url apiKey videoId (toString limit)) :: events)
    /\ Forall (fun video => streamUrl video = None) suggestions
    /\ (forall e,
          fetch_search (related_url apiKey videoId (toString limit))
          = Throw e ->
          suggestions = []).
Proof.
  destruct (getSuggestions_never_rejects' apiKey fetch_search fetch_videos
              getBasicInfo videoId limit)
    as (suggestions & events & Hrun & Hnone).
  exists suggestions, events. split; [exact Hrun|]. split; [exact Hnone|].
  intros e He. unfold getSuggestions in Hrun.
  change (set_param "key" apiKey
            (set_param "maxResults" (toString limit)
               (set_param "type" "video"
                  (set_param "relatedToVideoId" videoId
                     (set_param "part" "snippet"
                        (new_URL
                           "https://www.googleapis.com/youtube/v3/search"))))))
    with (related_url apiKey videoId (toString limit)) in Hrun.
  cbv zeta in Hrun. unfold fetch in Hrun. rewrite He in Hrun.
  cbn in Hrun. injection Hrun as <- _. reflexivity.
Qed.

(** X16.  getVideoById returns a video or rejects with "Failed to fetch
    YouTube video details", and with no other error: "Video not found" is
    only logged.  For a blank id it rejects so without sending a
    request. *)
Theorem getVideoById_rejections (videoId : string) (includeStreamUrl : bool) :
  (exists r events,
      getVideoById apiKey fetch_videos getBasicInfo videoId includeStreamUrl
      = (r, events)
      /\ (r = Throw (Error "Failed to fetch YouTube video details")
          \/ exists video, r = Normal video))
  /\ (blank videoId = true ->
      getVideoById apiKey fetch_videos getBasicInfo videoId includeStreamUrl
      = (Throw (Error "Failed to fetch YouTube video details"),
         [ConsoleError ("Failed to get video " ++ videoId ++ ":")
            (OfError (Error "Video not found"))])).
Proof.
  split.
  - apply getVideoById_settles.
  - intros Hblank. unfold getVideoById.
    rewrite getVideosByIds_blank_ids'; [reflexivity|].
    intros id [<-|[]]. exact Hblank.
Qed.

(** X17.  searchVideos sends the search request first, with the query,
    the limit as text, the type video and the key, and returns videos
    with a page token or rejects with "Failed to search YouTube videos"
    and no other error.  A body without items gives no video and no page
    token after that single request; items none of which has a video id
    give no video and the page token of the body. *)
Theorem searchVideos_outcomes (query : string) (limit : number)
  (includeStreamUrl : bool) :
  let url := search_url apiKey query (toString limit) in
  let run :=
    searchVideos apiKey fetch_search fetch_videos getBasicInfo query limit
      includeStreamUrl in
  (exists r events,
      run = (r, Fetched url :: events)
      /\ (r = Throw (Error "Failed to search YouTube videos")
          \/ exists videos token, r = Normal (videos, token)))
  /\ (forall response data,
         fetch_search url = Normal response -> ok response = true ->
         json response = Normal data ->
         search_items data = None \/ search_items data = Some [] ->
         run = (Normal ([], None), [Fetched url]))
  /\ (forall response data items,
         fetch_search url = Normal response -> ok response = true ->
         json response = Normal data ->
         search_items data = Some items -> items <> [] ->
         (forall item, In item items -> truthy_string (videoId item) = false) ->
         run = (Normal ([], nextPageToken data), [Fetched url])).
Proof.
  intros url run. subst url run. unfold searchVideos.
  change (set_param "key" apiKey
            (set_param "type" "video"
               (set_param "maxResults" (toString limit)
                  (set_param "q" query
                     (set_param "part" "snippet"
                        (new_URL
                           "https://www.googleapis.com/youtube/v3/search"))))))
    with (search_url apiKey query (toString limit)).
  cbv zeta. unfold fetch. split; [|split].
  - pose proof (searchVideos_settles apiKey fetch_search fetch_videos
                  getBasicInfo query limit includeStreamUrl) as H.
    unfold searchVideos in H. exact H.
  - intros response data -> Hok Hjson Hitems. cbn [io_bind].
    rewrite Hok. cbn [negb]. unfold await. rewrite Hjson. cbn [io_bind].
    destruct Hitems as [-> | ->]; reflexivity.
  - intros response data items -> Hok Hjson Hitems Hne Hids. cbn [io_bind].
    rewrite Hok. cbn [negb]. unfold await. rewrite Hjson. cbn [io_bind].
    rewrite Hitems. destruct items as [|item items]; [congruence|].
    unfold videoIds_of.
    rewrite (filter_nothing truthy_string (map videoId (item :: items))).
    + reflexivity.
    + intros v Hv. apply in_map_iff in Hv. destruct Hv as (it & <- & Hit).
      apply Hids, Hit.
Qed.

End ServiceProperties.

Section RouteProperties.
Variable apiKey : string.
Variable fetch_search : URL -> completion (Response SearchBody).
Variable fetch_videos : URL -> completion (Response VideosBody).
Variable getBasicInfo : string -> completion (list Format).

(** X18.  GET /youtube/stream/:id answers 200 with the stream url, which is
    not empty, when getYouTubeStreamUrl returns one, and 404 "Stream not
    available" with one console line in every other case. *)
Theorem getYouTubeStream_reply (id : string) :
  match getYouTubeStreamUrl getBasicInfo id with
  | Normal u =>
      u <> ""
      /\ getYouTubeStream getBasicInfo id
         = (Normal {| http_status := 200; reply_body := StreamUrl u |}, [])
  | Throw e =>
      getYouTubeStream getBasicInfo id
      = (Normal {| http_status := 404;
                   reply_body := Failure "Stream not available" |},
         [ConsoleError ("Failed to get stream URL for " ++ id ++ ":")
            (OfError e)])
  end.
Proof.
  unfold getYouTubeStream, getStreamUrl, await.
  destruct (getYouTubeStreamUrl getBasicInfo id) as [u|e] eqn:E.
  - split; [|reflexivity].
    unfold getYouTubeStreamUrl in E.
    destruct (getBasicInfo _) as [formats|e']; [|discriminate].
    cbn [bind] in E.
    repeat match type of E with
           | context [hd_error ?l] => destruct (hd_error l) as [?f|]
           | context [truthy_string ?v] =>
               let H := fresh "H" in
               destruct (truthy_string v) eqn:H;
               [destruct (truthy_string_some _ H) as (? & ? & ? & ?)|]
           end;
      cbn [negb deref bind] in E; try discriminate;
      injection E as <-; congruence.
  - reflexivity.
Qed.

(** X19.  GET /youtube/suggestions/:id always answers 200 with a list of
    videos without stream urls, whatever the outside world does; without a
    limit parameter it asks for 10 results. *)
Theorem getYouTubeSuggestions_always_succeeds (id : string)
  (limit : option string) :
  exists suggestions events,
    getYouTubeSuggestions apiKey fetch_search fetch_videos getBasicInfo
      id limit
    = (Normal {| http_status := 200; reply_body := Videos suggestions |},
       Fetched (related_url apiKey id (toString (limit_of limit))) :: events)
    /\ Forall (fun video => streamUrl video = None) suggestions
    /\ (limit = None ->
        related_url apiKey id (toString (limit_of limit))
        = related_url apiKey id "10").
Proof.
  unfold getYouTubeSuggestions.
  destruct (getSuggestions_never_rejects' apiKey fetch_search fetch_videos
              getBasicInfo id (limit_of limit))
    as (suggestions & events & -> & Hnone).
  exists suggestions, events. split; [|split].
  - cbn [io_bind ret]. rewrite app_nil_r. reflexivity.
  - exact Hnone.
  - intros ->. reflexivity.
Qed.

(** X20.  GET /youtube/video/:id answers 200 with a video or 404 "Video not
    found", and nothing else.  It answers 404 for a blank id, without a
    request, and after the one request when that is rejected, when the
    answer is not ok, when its body cannot be read, and when the body has
    no items or none; it answers 200 with the video of the first item
    when the body has one. *)
Theorem getYouTubeVideo_reply (id : string) (stream : option string) :
  let run := getYouTubeVideo apiKey fetch_videos getBasicInfo id stream in
  let url := videos_url apiKey [id] in
  let not_found :=
    {| http_status := 404; reply_body := Failure "Video not found" |} in
  let failed e :=
    run = (Normal not_found,
           [Fetched url;
            ConsoleError "Failed to get video details:" (OfError e);
            ConsoleError ("Failed to get video " ++ id ++ ":")
              (OfError (Error "Failed to fetch video details"))]) in
  (exists events,
      (exists video,
          run = (Normal {| http_status := 200; reply_body := Video video |},
                 events))
      \/ run = (Normal not_found, events))
  /\ (blank id = true ->
      run = (Normal not_found,
             [ConsoleError ("Failed to get video " ++ id ++ ":")
                (OfError (Error "Video not found"))]))
  /\ (blank id = false ->
      (forall e, fetch_videos url = Throw e -> failed e)
      /\ (forall response,
             fetch_videos url = Normal response -> ok response = false ->
             failed (Error ("YouTube API error: "
                            ++ toString (Num (status response)))))
      /\ (forall response e,
             fetch_videos url = Normal response -> ok response = true ->
             json response = Throw e -> failed e)
      /\ (forall response data,
             fetch_videos url = Normal response -> ok response = true ->
             json response = Normal data -> video_items data = None ->
             failed TypeError)
      /\ (forall response data,
             fetch_videos url = Normal response -> ok response = true ->
             json response = Normal data -> video_items data = Some [] ->
             run = (Normal not_found,
                    [Fetched url;
                     ConsoleError ("Failed to get video " ++ id ++ ":")
                       (OfError (Error "Video not found"))]))
      /\ (forall response data item items,
             fetch_videos url = Normal response -> ok response = true ->
             json response = Normal data ->
             video_items data = Some (item :: items) ->
             exists video console,
               run = (Normal {| http_status := 200;
                                reply_body := Video video |},
                      Fetched url :: console)
               /\ video_of_item (stream_of "true" stream) item video
               /\ forallb console_line console = true)).
Proof.
  intros run url not_found failed. subst run url not_found failed. cbv beta.
  split; [|split].
  - unfold getYouTubeVideo.
    destruct (getVideoById_settles apiKey fetch_videos getBasicInfo id
                (stream_of "true" stream))
      as (r & events & -> & [-> | (video & ->)]).
    + exists events. right. reflexivity.
    + exists (events ++ [])%list. left. exists video. reflexivity.
  - intros Hblank. unfold getYouTubeVideo, getVideoById.
    rewrite getVideosByIds_blank_ids'; [reflexivity|].
    intros id' [<-|[]]. exact Hblank.
  - intros Hblank.
    pose proof (getVideosByIds_cases apiKey fetch_videos getBasicInfo [id]
                  (stream_of "true" stream)) as H.
    cbv zeta in H. cbn [filter] in H. rewrite Hblank in H. cbn [negb] in H.
    unfold getYouTubeVideo, getVideoById.
    repeat split.
    + intros e He. rewrite He in H. rewrite H. reflexivity.
    + intros response Hr Hok. rewrite Hr, Hok in H. rewrite H. reflexivity.
    + intros response e Hr Hok Hj. rewrite Hr, Hok, Hj in H.
      rewrite H. reflexivity.
    + intros response data Hr Hok Hj Hi. rewrite Hr, Hok, Hj, Hi in H.
      rewrite H. reflexivity.
    + intros response data Hr Hok Hj Hi. rewrite Hr, Hok, Hj, Hi in H.
      destruct H as (videos & console & -> & Hrel & _ & _ & Hlen).
      inversion Hrel; subst.
      destruct console; [reflexivity | simpl in Hlen; lia].
    + intros response data item items Hr Hok Hj Hi.
      rewrite Hr, Hok, Hj, Hi in H.
      destruct H as (videos & console & -> & Hrel & _ & Hc & _).
      inversion Hrel as [|? video ? videos' Hv Hrest]; subst.
      exists video, console. split; [|split; [exact Hv | exact Hc]].
      cbn. rewrite !app_nil_r. reflexivity.
Qed.

(** X21.  GET /youtube/search answers 400 "Query parameter is required"
    for the empty query without calling the service; for any other query
    it sends the search request and answers 200 with videos or 500
    "Search failed". *)
Theorem searchYouTube_reply (query : string) (limit stream : option string) :
  (query = "" ->
   searchYouTube apiKey fetch_search fetch_videos getBasicInfo
     query limit stream
   = (Normal {| http_status := 400;
                reply_body := Failure "Query parameter is required" |}, []))
  /\ (query <> "" ->
      exists events,
        let sent :=
          Fetched (search_url apiKey query (toString (limit_of limit)))
          :: events in
        (exists videos,
            searchYouTube apiKey fetch_search fetch_videos getBasicInfo
              query limit stream
            = (Normal {| http_status := 200; reply_body := Videos videos |},
               sent))
        \/ searchYouTube apiKey fetch_search fetch_videos getBasicInfo
             query limit stream
           = (Normal {| http_status := 500;
                        reply_body := Failure "Search failed" |}, sent)).
Proof.
  split.
  - intros ->. reflexivity.
  - intros Hne. unfold searchYouTube.
    destruct query as [|c query]; [congruence|]. cbn [truthy_string negb].
    destruct (searchVideos_settles apiKey fetch_search fetch_videos
                getBasicInfo (String c query) (limit_of limit)
                (stream_of "false" stream))
      as (r & events & -> & [-> | (videos & token & ->)]).
    + exists events. right. reflexivity.
    + exists (events ++ [])%list. left. exists videos. reflexivity.
Qed.

End RouteProperties.

Lemma getYouTubeStreamUrl_sound_witness :
  let muxed := {| hasAudio := true; hasVideo := true;
                  bitrate := Some (Num 900); format_url := Some "https://v" |} in
  let audio := {| hasAudio := true; hasVideo := false;
                  bitrate := Some (Num 128); format_url := Some "https://a" |} in
  "https://a" <> ""
  /\ exists formats f,
       Normal [muxed; audio] = Normal formats
       /\ In f formats
       /\ hasAudio f = true
       /\ format_url f = Some "https://a"
       /\ forall g, In g formats -> hasAudio g = true -> hasVideo g = false ->
                    bitrate_key g <= bitrate_key f.
Proof.
  intros muxed audio.
  exact (getYouTubeStreamUrl_sound (fun _ => Normal [muxed; audio]) "id"
           "https://a" eq_refl).
Defined.

Lemma getYouTubeStreamUrl_prefers_audio_only_witness :
  let muxed := {| hasAudio := true; hasVideo := true;
                  bitrate := Some (Num 900); format_url := Some "https://v" |} in
  let audio := {| hasAudio := true; hasVideo := false;
                  bitrate := Some (Num 128); format_url := Some "https://a" |} in
  exists f u,
    getYouTubeStreamUrl (fun _ => Normal [muxed; audio]) "id" = Normal u
    /\ In f [muxed; audio]
    /\ hasAudio f = true /\ hasVideo f = false
    /\ format_url f = Some u
    /\ forall g, In g [muxed; audio] -> hasAudio g = true ->
                 hasVideo g = false -> bitrate_key g <= bitrate_key f.
Proof.
  intros muxed audio.
  apply (getYouTubeStreamUrl_prefers_audio_only
           (fun _ => Normal [muxed; audio]) "id" [muxed; audio] audio).
  - reflexivity.
  - repeat split. right. left. reflexivity.
  - intros g [<-|[<-|[]]]; [discriminate | reflexivity].
Defined.

Lemma getVideosByIds_blank_ids_witness :
  getVideosByIds "key" (fun _ => Throw TypeError) (fun _ => Throw TypeError)
    [""; "   "] true
  = (Normal [], []).
Proof.
  apply getVideosByIds_blank_ids.
  intros id [<-|[<-|[]]]; reflexivity.
Defined.

Lemma getVideosByIds_videos_witness :
  let item :=
    {| item_id := "abc"; title := "A"; thumbnails := [];
       channelTitle := "C"; channelId := "c1"; item_description := "";
       publishedAt := None; liveBroadcastContent := "none";
       statistics_viewCount := Some "12"; contentDetails_duration := "PT1M5S"
    |} in
  let response :=
    {| ok := true; status := 200;
       json := Normal {| video_items := Some [item] |} |} in
  exists videos console,
    getVideosByIds "key" (fun _ => Normal response)
      (fun _ => Throw TypeError) ["abc"; " "] false
    = (Normal videos, Fetched (videos_url "key" ["abc"]) :: console)
    /\ Forall2 (video_of_item false) [item] videos
    /\ (false = false -> console = [])
    /\ forallb console_line console = true
    /\ (List.length console <= List.length [item])%nat.
Proof.
  intros item response.
  apply (getVideosByIds_videos "key" (fun _ => Normal response)
           (fun _ => Throw TypeError) ["abc"; " "] false response
           {| video_items := Some [item] |} [item]);
    try reflexivity.
  discriminate.
Defined.

Lemma getVideosByIds_failure_witness :
  getVideosByIds "key" (fun _ => Throw (Error "timeout"))
    (fun _ => Throw TypeError) ["abc"] true
  = (Throw (Error "Failed to fetch video details"),
     [Fetched (videos_url "key" ["abc"]);
      ConsoleError "Failed to get video details:"
        (OfError (Error "timeout"))]).
Proof.
  apply (proj1 (getVideosByIds_failure "key" (fun _ => Throw (Error "timeout"))
                  (fun _ => Throw TypeError) ["abc"] true
                  ltac:(discriminate))).
  reflexivity.
Defined.

Lemma duration_of_every_iso_text_witness :
  (lengthText <- formatDuration "PT1H2M3S" ;; parseDuration (Some lengthText))
  = Normal (Some (Num 3723)).
Proof.
  apply (proj1 (proj2 (duration_of_every_iso_text "PT1H2M3S"))).
  vm_compute. reflexivity.
Defined.

Lemma getYouTubeVideo_reply_witness :
  getYouTubeVideo "key" (fun _ => Throw (Error "timeout"))
    (fun _ => Throw TypeError) "abc" None
  = (Normal {| http_status := 404; reply_body := Failure "Video not found" |},
     [Fetched (videos_url "key" ["abc"]);
      ConsoleError "Failed to get video details:" (OfError (Error "timeout"));
      ConsoleError "Failed to get video abc:"
        (OfError (Error "Failed to fetch video details"))]).
Proof.
  apply (proj1 (proj2 (proj2 (getYouTubeVideo_reply "key"
                                (fun _ => Throw (Error "timeout"))
                                (fun _ => Throw TypeError) "abc" None))
                 eq_refl)).
  reflexivity.
Defined.
